(** * The catalog data-access layer of mystore, embedded in Rocq

    The development follows the repository's data-access file: the option
    sanitizers, the entity fetches with field projection, the batch fetch by
    ids, the upsell and collection expansions, and the two singleton
    bootstraps.  JavaScript values are a small inductive type, objects are
    finite maps of their own properties, and every exported (async) function
    is a computation in a state-and-exception monad over the document store,
    which also records the store operations that were issued. *)

From Stdlib Require Import ZArith String Ascii List Lia.
From stdpp Require Import gmap strings list fin_maps sorting pretty.

Set Warnings "-register-all".
Set Default Proof Using "Type".

(* ===================================================================== *)
(** * JavaScript values *)
(* ===================================================================== *)

Module Js.

(** Numbers are integers: the code only carries numbers around, except for
    the sort keys ([index], time values), of which only the sign of a
    difference is inspected.  A string is read as its sequence of code
    units, all below 256. *)
Inductive value :=
| VUndef
| VNull
| VBool (b : bool)
| VNum (n : Z)
| VStr (s : string)
| VArr (l : list value)
| VObj (o : gmap string value).

Abbreviation obj := (gmap string value).

(** What an operation of the language gives: a value, or a thrown
    exception (a rejected promise, for an async function). *)
Inductive outcome (A : Type) :=
| Ok (a : A)
| Throw.
Arguments Ok {A} a.
Arguments Throw {A}.

Definition obind {A B} (m : outcome A) (k : A → outcome B) : outcome B :=
  match m with Ok a => k a | Throw => Throw end.

(** [!v] is [negb (truthy v)]. *)
Definition truthy (v : value) : bool :=
  match v with
  | VUndef | VNull => false
  | VBool b => b
  | VNum n => negb (n =? 0)%Z
  | VStr s => negb (String.eqb s "")
  | VArr _ | VObj _ => true
  end.

(** [o[k]] for an own data property: [undefined] when it is absent. *)
Definition get (o : obj) (k : string) : value := default VUndef (o !! k).

(** [v.k] on an arbitrary value, for a data field name [k] (no built-in
    member of strings, arrays or [Object.prototype]): reading a property of
    [undefined] or [null] throws a TypeError, a primitive or an array has no
    such property. *)
Definition member (v : value) (k : string) : outcome value :=
  match v with
  | VUndef | VNull => Throw
  | VObj o => Ok (get o k)
  | _ => Ok VUndef
  end.

(** The property names every plain object inherits from [Object.prototype]. *)
Definition Object_prototype : list string :=
  ["constructor"; "hasOwnProperty"; "isPrototypeOf"; "propertyIsEnumerable";
   "toLocaleString"; "toString"; "valueOf"; "__proto__";
   "__defineGetter__"; "__defineSetter__"; "__lookupGetter__";
   "__lookupSetter__"].

(** [k in o]: own properties and the inherited ones. *)
Definition js_in (k : string) (o : obj) : bool :=
  bool_decide (is_Some (o !! k)) || bool_decide (k ∈ Object_prototype).

(** [o.hasOwnProperty(k)]: the method is looked up on [o] first, so a
    document with a field of that name shadows it with a value that is not
    callable, and the call throws a TypeError. *)
Definition hasOwnProperty (o : obj) (k : string) : outcome bool :=
  match o !! "hasOwnProperty" with
  | Some _ => Throw
  | None => Ok (bool_decide (is_Some (o !! k)))
  end.

(** [Object.keys(o)], in the order the map enumerates them. *)
Definition keys (o : obj) : list string := (map_to_list o).*1.

(** [{...src, (the properties of tgt stay unless src has them)}]: spreading
    [src] into an object literal that so far holds [tgt]. *)
Definition spread (src tgt : obj) : obj := src ∪ tgt.

(** ** Strings *)

(** White space of [String.prototype.trim], among code units below 256. *)
Definition is_ws (c : ascii) : bool :=
  let n := nat_of_ascii c in
  ((9 <=? n) && (n <=? 13)) || (n =? 32) || (n =? 160).

Fixpoint trimStart (s : string) : string :=
  match s with
  | EmptyString => EmptyString
  | String c s' => if is_ws c then trimStart s' else s
  end.

Definition trim (s : string) : string :=
  String.rev (trimStart (String.rev (trimStart s))).

(** [toUpperCase] on the letters a-z.  The other code units are left as they
    are: none of them has an upper-case form made of the letters of DRAFT,
    PUBLISHED or HIDDEN, so the test the sanitizer makes on the result is
    the one the language makes. *)
Definition upper_ascii (c : ascii) : ascii :=
  let n := nat_of_ascii c in
  if (97 <=? n) && (n <=? 122) then ascii_of_nat (n - 32) else c.

Fixpoint toUpperCase (s : string) : string :=
  match s with
  | EmptyString => EmptyString
  | String c s' => String (upper_ascii c) (toUpperCase s')
  end.

Fixpoint chars (s : string) : list string :=
  match s with
  | EmptyString => []
  | String c s' => String c EmptyString :: chars s'
  end.

(** ** Numbers and dates *)

(** What the engine supplies and the model does not compute: the numeric
    value of a string, the time value [Date.parse] reads from a string
    ([None] is NaN), and the largest id list the store's membership filter
    takes. *)
Record runtime := {
  StringToNumber : string → option Z;
  Date_parse : string → option Z;
  in_filter_limit : nat;
}.

(** [ToString], as [ToPrimitive] uses it on arrays and plain objects. *)
Fixpoint ToString (v : value) : string :=
  match v with
  | VUndef => "undefined"
  | VNull => "null"
  | VBool b => if b then "true" else "false"
  | VNum n => pretty n
  | VStr s => s
  | VArr l =>
      (fix join (l : list value) : string :=
         match l with
         | [] => ""
         | x :: l' =>
             let sx := match x with VUndef | VNull => "" | _ => ToString x end in
             match l' with [] => sx | _ => sx +:+ "," +:+ join l' end
         end) l
  | VObj _ => "[object Object]"
  end.

Section Coercions.
Context (rt : runtime).

Definition ToNumber (v : value) : option Z :=
  match v with
  | VUndef => None
  | VNull => Some 0%Z
  | VBool b => Some (if b then 1 else 0)%Z
  | VNum n => Some n
  | VStr s => StringToNumber rt s
  | VArr _ | VObj _ => StringToNumber rt (ToString v)
  end.

(** [x - y]; NaN when either side is. *)
Definition minus (x y : value) : option Z :=
  match ToNumber x, ToNumber y with
  | Some a, Some b => Some (a - b)%Z
  | _, _ => None
  end.

Definition TimeClip (t : Z) : option Z :=
  if (Z.abs t <=? 8640000000000000)%Z then Some t else None.

(** [new Date(v).getTime()]. *)
Definition Date_getTime (v : value) : option Z :=
  match v with
  | VStr s => Date_parse rt s
  | VArr _ | VObj _ => Date_parse rt (ToString v)
  | _ => t ← ToNumber v; TimeClip t
  end.

Definition Date_minus (x y : value) : option Z :=
  match Date_getTime x, Date_getTime y with
  | Some a, Some b => Some (a - b)%Z
  | _, _ => None
  end.
End Coercions.

(** ** [Array.prototype.sort] with a comparator

    The sort is stable; a comparator result that is NaN counts as 0.  For a
    comparator that is a consistent ordering every stable sort gives the
    same array, here by insertion. *)
Definition after (c : option Z) : bool :=
  match c with Some z => (0 <? z)%Z | None => false end.

Section Sort.
Context {A : Type}.

Section Pure.
Context (cmp : A → A → option Z).

Fixpoint sort_insert (x : A) (l : list A) : list A :=
  match l with
  | [] => [x]
  | y :: l' => if after (cmp x y) then y :: sort_insert x l' else x :: l
  end.

Fixpoint sort_with (l : list A) : list A :=
  match l with
  | [] => []
  | x :: l' => sort_insert x (sort_with l')
  end.
End Pure.

Section Throwing.
Context (cmp : A → A → outcome (option Z)).

Fixpoint sort_insertM (x : A) (l : list A) : outcome (list A) :=
  match l with
  | [] => Ok [x]
  | y :: l' =>
      obind (cmp x y) (λ c,
        if after c
        then obind (sort_insertM x l') (λ r, Ok (y :: r))
        else Ok (x :: l))
  end.

Fixpoint sort_withM (l : list A) : outcome (list A) :=
  match l with
  | [] => Ok []
  | x :: l' => obind (sort_withM l') (sort_insertM x)
  end.
End Throwing.
End Sort.

Definition is_undefined (v : value) : bool :=
  match v with VUndef => true | _ => false end.

(** [arr.sort(cmp)] on an array of arbitrary values: the comparator is not
    called on [undefined] elements, which go last. *)
Definition Array_sort (cmp : value → value → outcome (option Z))
    (l : list value) : outcome (list value) :=
  obind (sort_withM cmp (filter (λ v, is_undefined v = false) l))
        (λ s, Ok (s ++ filter (λ v, is_undefined v = true) l)).

End Js.
Import Js.


(* ===================================================================== *)
(** * The document store and its client *)
(* ===================================================================== *)

Module Firestore.

(** A document lives at a path of segments, [collection/id] for the
    top-level collections the repository uses. *)
Abbreviation path := (list string).

Inductive QueryConstraint :=
| FIdIn (ids : list string)          (* where("__name__", "in", ids) *)
| FEq (field : string) (v : value).  (* where(field, "==", v) *)

(** The operations the client sends to the store. *)
Inductive op :=
| Read (p : path)
| Query (coll : string) (fs : list QueryConstraint)
| Write (p : path) (d : obj).

Record world := World {
  docs : gmap path obj;
  trace : list op;
}.

(** An async function of the repository: it reads and writes the world and
    resolves to a value or rejects. *)
Definition M (A : Type) : Type := world → outcome A * world.

#[global] Instance M_ret : MRet M := λ A a w, (Ok a, w).
#[global] Instance M_bind : MBind M := λ A B k m w,
  match m w with
  | (Ok a, w') => k a w'
  | (Throw, w') => (Throw, w')
  end.

Definition throw {A} : M A := λ w, (Throw, w).

Definition lift {A} (r : outcome A) : M A := λ w, (r, w).

Definition issue (o : op) : M unit :=
  λ w, (Ok (), World (docs w) (trace w ++ [o])).

(** [Promise.all] over async callbacks that only read: every callback runs
    (the store sees the reads of all of them), the results come back in the
    order of the callbacks, and the whole rejects when one of them does. *)
Fixpoint promise_all {A} (ms : list (M A)) : M (list A) :=
  match ms with
  | [] => mret []
  | m :: ms' => λ w,
      let '(r, w1) := m w in
      let '(rs, w2) := promise_all ms' w1 in
      (match r, rs with Ok a, Ok l => Ok (a :: l) | _, _ => Throw end, w2)
  end.

(** ** Document references *)

Definition is_slash (c : ascii) : bool := Ascii.eqb c "/".

Fixpoint split_slash (s : string) (cur : string) : list string :=
  match s with
  | EmptyString => [cur]
  | String c s' =>
      if is_slash c then cur :: split_slash s' ""
      else split_slash s' (cur +:+ String c "")
  end.

(** The non-empty segments of a path string. *)
Definition segments (s : string) : list string :=
  filter (λ x, x ≠ "") (split_slash s "").

Fixpoint has_double_slash (s : string) : bool :=
  match s with
  | EmptyString => false
  | String c s' =>
      match s' with
      | String c' _ => (is_slash c && is_slash c') || has_double_slash s'
      | EmptyString => false
      end
  end.

Fixpoint has_slash (s : string) : bool :=
  match s with
  | EmptyString => false
  | String c s' => is_slash c || has_slash s'
  end.

(** [doc(database, coll, id)]: the segments of [id] are appended to the
    collection; the client rejects an [id] that is not a string or holds
    [//], and a path that does not have an even number of segments (so the
    empty id is rejected). *)
Definition doc_path (coll : string) (id : value) : outcome path :=
  match id with
  | VStr s =>
      if has_double_slash s then Throw
      else
        let p := coll :: segments s in
        if Nat.even (length p) then Ok p else Throw
  | _ => Throw
  end.

Definition doc (coll : string) (id : value) : M path := lift (doc_path coll id).

Record DocumentSnapshot := {
  snap_id : string;
  snap_data : option obj;  (* [None]: the document does not exist *)
}.

(** [getDoc(ref)]: one point read. *)
Definition getDoc (p : path) : M DocumentSnapshot :=
  λ w, (Ok {| snap_id := List.last p ""; snap_data := docs w !! p |},
        World (docs w) (trace w ++ [Read p])).

(** [setDoc(ref, data)]: full overwrite.  The data this file writes is a
    literal or was read from the store. *)
Definition setDoc (p : path) (d : obj) : M unit :=
  λ w, (Ok (), World (<[p := d]> (docs w)) (trace w ++ [Write p d])).

(** ** Queries *)

Record QueryDocumentSnapshot := {
  q_id : string;
  q_data : obj;
}.

(** Equality of stored values, as the equality filter compares them. *)
Fixpoint value_eqb (v w : value) {struct v} : bool :=
  match v, w with
  | VUndef, VUndef | VNull, VNull => true
  | VBool a, VBool b => bool_decide (a = b)
  | VNum a, VNum b => bool_decide (a = b)
  | VStr a, VStr b => bool_decide (a = b)
  | VArr a, VArr b =>
      (fix go (a b : list value) : bool :=
         match a, b with
         | [], [] => true
         | x :: a', y :: b' => value_eqb x y && go a' b'
         | _, _ => false
         end) a b
  | VObj a, VObj b =>
      bool_decide (dom a = dom b) &&
      map_fold (λ k x acc,
        acc && match b !! k with Some y => value_eqb x y | None => false end)
        true a
  | _, _ => false
  end.

(** A value the client accepts in a filter or a document: no [undefined]
    inside, no array directly inside an array. *)
Fixpoint storable (v : value) : bool :=
  match v with
  | VUndef => false
  | VArr l =>
      forallb (λ x, match x with VArr _ => false | _ => storable x end) l
  | VObj o => map_fold (λ _ x acc, acc && storable x) true o
  | _ => true
  end.

(** [where("__name__", "in", ids)] on a collection: the client rejects an
    empty list, a list beyond the limit, and an id that is empty or holds a
    slash. *)
Definition where_in (rt : runtime) (ids : list string) : outcome QueryConstraint :=
  if bool_decide (ids = []) || (in_filter_limit rt <? length ids)
     || existsb (λ s, String.eqb s "" || has_slash s) ids
  then Throw else Ok (FIdIn ids).

(** [where(field, "==", v)]. *)
Definition where_eq (field : string) (v : value) : outcome QueryConstraint :=
  if storable v then Ok (FEq field v) else Throw.

Definition in_collection (coll : string) (e : path * obj)
    : option QueryDocumentSnapshot :=
  match e.1 with
  | [c; i] =>
      if decide (c = coll) then Some {| q_id := i; q_data := e.2 |} else None
  | _ => None
  end.

(** The documents of a collection, in the order the store lists them. *)
Definition collection_docs (coll : string) (d : gmap path obj)
    : list QueryDocumentSnapshot :=
  omap (in_collection coll) (map_to_list d).

Definition matches (f : QueryConstraint) (d : QueryDocumentSnapshot) : bool :=
  match f with
  | FIdIn ids => bool_decide (q_id d ∈ ids)
  | FEq k v =>
      match q_data d !! k with
      | Some x => value_eqb x v
      | None => false
      end
  end.

Definition select (coll : string) (fs : list QueryConstraint) (d : gmap path obj)
    : list QueryDocumentSnapshot :=
  filter (λ e, forallb (λ f, matches f e) fs = true) (collection_docs coll d).

(** [getDocs(query)]: one query; [snapshot.docs]. *)
Definition getDocs (coll : string) (fs : list QueryConstraint)
    : M (list QueryDocumentSnapshot) :=
  λ w, (Ok (select coll fs (docs w)),
        World (docs w) (trace w ++ [Query coll fs])).

End Firestore.
Import Firestore.


(* ===================================================================== *)
(** * The repository *)
(* ===================================================================== *)

(** The option objects, as a caller may pass them: any value in each
    property ([VUndef] for a property that is left out). *)
Record SingleItemOptionsType := {
  si_id : value;
  si_fields : value;
}.

Record GetProductsByIdsOptionsType := {
  mi_ids : value;
  mi_fields : value;
  mi_visibility : value;
}.

Record BaseOptionsType := {
  b_fields : value;
  b_visibility : value;
}.

Record SanitizedSingleItemOptionsType := {
  ss_id : string;
  ss_fields : list string;
}.

Record SanitizedMultiItemOptionsType := {
  sm_ids : list string;
  sm_fields : list string;
  sm_visibility : value;  (* [VUndef] when the property is not set *)
}.

(** ** Sanitizers *)

(** [typeof x === "string" && x.trim() !== ""] *)
Definition is_nonblank_string (v : value) : bool :=
  match v with
  | VStr s => negb (String.eqb (trim s) "")
  | _ => false
  end.

Definition as_string (v : value) : option string :=
  match v with VStr s => Some s | _ => None end.

(** [Array.isArray(x) ? x.filter(is_nonblank_string) : []] *)
Definition filter_strings (x : value) : list string :=
  match x with
  | VArr l => omap as_string (filter (λ v, is_nonblank_string v = true) l)
  | _ => []
  end.

(** [options.id.trim()] throws when [id] is not a string. *)
Definition sanitizeSingleItemOptions (options : SingleItemOptionsType)
    : outcome SanitizedSingleItemOptionsType :=
  match si_id options with
  | VStr id =>
      Ok {| ss_id := trim id; ss_fields := filter_strings (si_fields options) |}
  | _ => Throw
  end.

Definition validVisibilityFlags : list string :=
  ["DRAFT"; "PUBLISHED"; "HIDDEN"].

Definition sanitizeMultiItemOptions (options : GetProductsByIdsOptionsType)
    : SanitizedMultiItemOptionsType :=
  {| sm_ids := filter_strings (mi_ids options);
     sm_fields := filter_strings (mi_fields options);
     sm_visibility :=
       match mi_visibility options with
       | VStr visibility =>
           let uppercaseVisibility := toUpperCase visibility in
           if bool_decide (uppercaseVisibility ∈ validVisibilityFlags)
           then VStr uppercaseVisibility
           else VUndef
       | _ => VUndef
       end |}.

Definition sanitizeBaseOptions (options : BaseOptionsType)
    : SanitizedMultiItemOptionsType :=
  {| sm_ids := [];
     sm_fields := filter_strings (b_fields options);
     sm_visibility := b_visibility options |}.

(** ** Field projection *)

(** [fields.forEach(field => { if (data.hasOwnProperty(field))
    selectedFields[field] = data[field]; })] *)
Fixpoint select_fields (fields : list string) (data selectedFields : obj)
    : outcome obj :=
  match fields with
  | [] => Ok selectedFields
  | field :: rest =>
      obind (hasOwnProperty data field) (λ own,
        select_fields rest data
          (if own then <[field := get data field]> selectedFields
           else selectedFields))
  end.

(** [if (fields.length) { ...forEach... } else { selectedFields = data; }] *)
Definition pick (fields : list string) (data : obj) : outcome obj :=
  match fields with
  | [] => Ok data
  | _ => select_fields fields data ∅
  end.

Fixpoint Array_map {A B} (f : A → outcome B) (l : list A) : outcome (list B) :=
  match l with
  | [] => Ok []
  | x :: l' => obind (f x) (λ y, obind (Array_map f l') (λ r, Ok (y :: r)))
  end.

Section Repository.
Context (rt : runtime).

Definition sortItems (items : list obj) (key : string) (isDate : bool)
    : list obj :=
  sort_with (λ a b,
    if isDate then Date_minus rt (get b key) (get a key)
    else minus rt (get a key) (get b key)) items.

(** ** Single entities

    [getProduct] and [getCollection] are the same function up to the name
    of the collection. *)
Definition getEntity (coll : string) (options : SingleItemOptionsType)
    : M (option obj) :=
  sanitizedOptions ← lift (sanitizeSingleItemOptions options);
  let id := ss_id sanitizedOptions in
  let fields := ss_fields sanitizedOptions in
  if String.eqb id "" then mret None
  else
    documentRef ← doc coll (VStr id);
    snapshot ← getDoc documentRef;
    match snap_data snapshot with
    | None => mret None
    | Some data =>
        selectedFields ← lift (pick fields data);
        mret (Some (spread selectedFields {["id" := VStr (snap_id snapshot)]}))
    end.

Definition getProduct : SingleItemOptionsType → M (option obj) :=
  getEntity "products".

Definition getCollection : SingleItemOptionsType → M (option obj) :=
  getEntity "collections".

(** ** Products *)

(** The callback of [snapshot.docs.map] in [getProducts] and
    [getProductsByIds]. *)
Definition productEntry (fields : list string) (d : QueryDocumentSnapshot)
    : outcome obj :=
  let data := q_data d in
  obind (pick fields data) (λ selectedFields,
    Ok (<["visibility" := get data "visibility"]>
          (<["updatedAt" := get data "updatedAt"]>
             (spread selectedFields {["id" := VStr (q_id d)]})))).

Definition visibility_constraint (visibility : value)
    : outcome (list QueryConstraint) :=
  if truthy visibility
  then obind (where_eq "visibility" visibility) (λ f, Ok [f])
  else Ok [].

Definition getProducts (options : BaseOptionsType) : M (option (list obj)) :=
  let sanitizedOptions := sanitizeBaseOptions options in
  let fields := sm_fields sanitizedOptions in
  let visibility := sm_visibility sanitizedOptions in
  firestoreQuery ← lift (visibility_constraint visibility);
  snapshot ← getDocs "products" firestoreQuery;
  match snapshot with
  | [] => mret None
  | _ =>
      products ← lift (Array_map (productEntry fields) snapshot);
      mret (Some (sortItems products "updatedAt" true))
  end.

Definition getProductsByIds (options : GetProductsByIdsOptionsType)
    : M (option (list obj)) :=
  let sanitizedOptions := sanitizeMultiItemOptions options in
  let ids := sm_ids sanitizedOptions in
  let fields := sm_fields sanitizedOptions in
  let visibility := sm_visibility sanitizedOptions in
  match ids with
  | [] => mret None
  | _ =>
      byName ← lift (where_in rt ids);
      byVisibility ← lift (visibility_constraint visibility);
      snapshot ← getDocs "products" (byName :: byVisibility);
      match snapshot with
      | [] => mret None
      | _ =>
          products ← lift (Array_map (productEntry fields) snapshot);
          mret (Some (sortItems products "updatedAt" true))
      end
  end.

(** [x.map(...)]: only an array has the method. *)
Definition as_array (x : value) : outcome (list value) :=
  match x with VArr l => Ok l | _ => Throw end.

(** The async callback of [upsellData.products.map] in
    [getProductWithUpsell]; [None] is its [null]. *)
Definition resolveUpsellProduct (productItem : value) : M (option obj) :=
  itemId ← lift (member productItem "id");
  productDocRef ← doc "products" itemId;
  productSnapshot ← getDoc productDocRef;
  match snap_data productSnapshot with
  | None => mret None
  | Some productData =>
      index ← lift (member productItem "index");
      name ← lift (member productItem "name");
      mainImage ← lift (member (get productData "images") "main");
      basePrice ← lift (member (get productData "pricing") "basePrice");
      mret (Some (<["basePrice" := basePrice]>
                    (<["mainImage" := mainImage]>
                       (<["slug" := get productData "slug"]>
                          (<["id" := get productData "id"]>
                             (<["name" := name]>
                                {["index" := index]}))))))
  end.

Definition getProductWithUpsell (options : SingleItemOptionsType)
    : M (option obj) :=
  product ← getProduct options;
  match product with
  | None => mret None
  | Some product =>
      if negb (truthy (get product "upsell")) then mret (Some product)
      else
        upsellDocRef ← doc "upsells" (get product "upsell");
        upsellSnapshot ← getDoc upsellDocRef;
        match snap_data upsellSnapshot with
        | None => mret (Some product)
        | Some upsellData =>
            items ← lift (as_array (get upsellData "products"));
            productsInUpsell ← promise_all (resolveUpsellProduct <$> items);
            let upsellDetails :=
              <["products" := VArr (VObj <$> omap id productsInUpsell)]>
                upsellData in
            mret (Some (<["upsell" := VObj upsellDetails]> product))
        end
  end.

(** ** Collections *)

(** The async callback of [(data.products || []).map] in [getCollections]. *)
Definition expandCollectionProduct (product : value) : M value :=
  productId ← lift (member product "id");
  productDocRef ← doc "products" productId;
  productDoc ← getDoc productDocRef;
  productIndex ← lift (member product "index");
  mret (VObj (<["index" := productIndex]>
                (<["id" := productId]>
                   (spread (default ∅ (snap_data productDoc)) ∅)))).

(** The async callback of [snapshot.docs.map] in [getCollections]. *)
Definition collectionEntry (fields : list string)
    (document : QueryDocumentSnapshot) : M obj :=
  let data := q_data document in
  selectedFields ← lift (select_fields fields data ∅);
  selectedFields ←
    (if bool_decide ("products" ∈ fields) then
       let refs := get data "products" in
       refs ← lift (as_array (if truthy refs then refs else VArr []));
       products ← promise_all (expandCollectionProduct <$> refs);
       mret (<["products" := VArr products]> selectedFields)
     else mret selectedFields);
  mret (<["collectionType" := get data "collectionType"]>
          (<["visibility" := get data "visibility"]>
             (<["index" := get data "index"]>
                (<["updatedAt" := get data "updatedAt"]>
                   (spread selectedFields {["id" := VStr (q_id document)]}))))).

Definition getCollections (options : BaseOptionsType)
    : M (option (list obj)) :=
  let sanitizedOptions := sanitizeBaseOptions options in
  let fields := sm_fields sanitizedOptions in
  let visibility := sm_visibility sanitizedOptions in
  firestoreQuery ← lift (visibility_constraint visibility);
  snapshot ← getDocs "collections" firestoreQuery;
  match snapshot with
  | [] => mret None
  | _ =>
      collections ← promise_all (collectionEntry fields <$> snapshot);
      mret (Some (sortItems collections "index" false))
  end.

(** ** Upsells *)

Definition getUpsells : M (option (list obj)) :=
  snapshot ← getDocs "upsells" [];
  let upsells :=
    (λ d, spread (q_data d) {["id" := VStr (q_id d)]}) <$> snapshot in
  mret (Some (sortItems upsells "updatedAt" true)).

(** [[...x]]: an array or a string can be spread into an array. *)
Definition iterate (x : value) : outcome (list value) :=
  match x with
  | VArr l => Ok l
  | VStr s => Ok (VStr <$> chars s)
  | _ => Throw
  end.

(** [(a, b) => a.index - b.index] on arbitrary array elements. *)
Definition by_index (a b : value) : outcome (option Z) :=
  obind (member a "index") (λ ia,
    obind (member b "index") (λ ib, Ok (minus rt ia ib))).

Definition getUpsell (id : value) : M (option obj) :=
  documentRef ← doc "upsells" id;
  snapshot ← getDoc documentRef;
  match snap_data snapshot with
  | None => mret None
  | Some data =>
      sortedProducts ← lift (
        if truthy (get data "products")
        then obind (iterate (get data "products")) (Array_sort by_index)
        else Ok []);
      mret (Some (<["products" := VArr sortedProducts]>
                    (spread data {["id" := VStr (snap_id snapshot)]})))
  end.

(** ** Page hero, categories, settings *)

Definition defaultPageHero : obj :=
  <["images" := VObj (<["desktop" := VStr ""]> {["mobile" := VStr ""]})]>
    (<["title" := VStr ""]>
       (<["destinationUrl" := VStr ""]>
          {["visibility" := VStr "HIDDEN"]})).

Definition getPageHero : M obj :=
  documentRef ← doc "pageHero" (VStr "homepageHero");
  snapshot ← getDoc documentRef;
  match snap_data snapshot with
  | None =>
      _ ← setDoc documentRef defaultPageHero;
      mret (spread defaultPageHero {["id" := VStr (List.last documentRef "")]})
  | Some data =>
      mret (spread data {["id" := VStr (snap_id snapshot)]})
  end.

Definition getCategories : M (option (list obj)) :=
  snapshot ← getDocs "categories" [];
  match snapshot with
  | [] => mret None
  | _ =>
      let categories :=
        (λ d, spread (q_data d) {["id" := VStr (q_id d)]}) <$> snapshot in
      mret (Some (sort_with
                    (λ a b, minus rt (get a "index") (get b "index"))
                    categories))
  end.

Definition defaultSettings : obj :=
  {["categorySection" := VObj {["visibility" := VStr "HIDDEN"]}]}.

(** The body of the first loop of [getSettings], on the pair
    [(currentSettings, needsUpdate)]. *)
Definition add_missing (st : obj * bool) (key : string) : obj * bool :=
  if negb (js_in key st.1)
  then (<[key := get defaultSettings key]> st.1, true)
  else st.

(** The body of the second loop. *)
Definition drop_extra (st : obj * bool) (key : string) : obj * bool :=
  if negb (js_in key defaultSettings)
  then (delete key st.1, true)
  else st.

Definition reconcile (currentSettings : obj) : obj * bool :=
  let st := foldl add_missing (currentSettings, false) (keys defaultSettings) in
  foldl drop_extra st (keys st.1).

Definition getSettings : M obj :=
  documentRef ← doc "settings" (VStr "defaultSettings");
  snapshot ← getDoc documentRef;
  match snap_data snapshot with
  | None =>
      _ ← setDoc documentRef defaultSettings;
      mret defaultSettings
  | Some currentSettings =>
      let '(currentSettings, needsUpdate) := reconcile currentSettings in
      if needsUpdate
      then _ ← setDoc documentRef currentSettings; mret currentSettings
      else mret currentSettings
  end.

End Repository.


(* ===================================================================== *)
(** * An engine to run the repository on concrete stores *)
(* ===================================================================== *)

(** A runtime for the examples: integer literals for [StringToNumber], and
    for [Date.parse] the two ISO forms [YYYY-MM-DD] and
    [YYYY-MM-DDTHH:mm:ss.sssZ] (what [toISOString] prints), both UTC. *)
Module Engine.

Definition digit (c : ascii) : option Z :=
  let n := nat_of_ascii c in
  if (48 <=? n) && (n <=? 57) then Some (Z.of_nat (n - 48)) else None.

Fixpoint digits (cs : list ascii) (acc : Z) : option Z :=
  match cs with
  | [] => Some acc
  | c :: cs' => d ← digit c; digits cs' (10 * acc + d)%Z
  end.

Definition integer_literal (s : string) : option Z :=
  match list_ascii_of_string (trim s) with
  | [] => Some 0%Z
  | "-"%char :: (_ :: _) as cs => n ← digits cs 0; Some (- n)%Z
  | "+"%char :: (_ :: _) as cs => digits cs 0
  | cs => digits cs 0
  end.

Definition leap (y : Z) : bool :=
  ((y mod 4 =? 0) && negb (y mod 100 =? 0) || (y mod 400 =? 0))%Z.

Definition days_in_month (y m : Z) : Z :=
  (if m =? 2 then (if leap y then 29 else 28)
   else if (m =? 4) || (m =? 6) || (m =? 9) || (m =? 11) then 30 else 31)%Z.

(** Days from 1970-01-01 to the given civil date. *)
Definition days_from_civil (y m d : Z) : Z :=
  (let y' := if m <=? 2 then y - 1 else y in
   let era := y' / 400 in
   let yoe := y' - era * 400 in
   let doy := (153 * (if 2 <? m then m - 3 else m + 9) + 2) / 5 + d - 1 in
   let doe := yoe * 365 + yoe / 4 - yoe / 100 + doy in
   era * 146097 + doe - 719468)%Z.

Definition date_ms (ys ms ds : list ascii) : option Z :=
  y ← digits ys 0; m ← digits ms 0; d ← digits ds 0;
  if ((1 <=? m) && (m <=? 12) && (1 <=? d) && (d <=? days_in_month y m))%Z
  then Some (days_from_civil y m d * 86400000)%Z
  else None.

Definition time_ms (hs mis ss fs : list ascii) : option Z :=
  h ← digits hs 0; mi ← digits mis 0; s ← digits ss 0; f ← digits fs 0;
  if ((h <=? 23) && (mi <=? 59) && (s <=? 59))%Z
  then Some (((h * 60 + mi) * 60 + s) * 1000 + f)%Z
  else None.

Definition iso_date (s : string) : option Z :=
  match list_ascii_of_string s with
  | [y1; y2; y3; y4; "-"; m1; m2; "-"; d1; d2]%char =>
      date_ms [y1; y2; y3; y4] [m1; m2] [d1; d2]
  | [y1; y2; y3; y4; "-"; m1; m2; "-"; d1; d2; "T";
     h1; h2; ":"; i1; i2; ":"; s1; s2; "."; f1; f2; f3; "Z"]%char =>
      day ← date_ms [y1; y2; y3; y4] [m1; m2] [d1; d2];
      time ← time_ms [h1; h2] [i1; i2] [s1; s2] [f1; f2; f3];
      Some (day + time)%Z
  | _ => None
  end.

Definition engine : runtime :=
  {| StringToNumber := integer_literal;
     Date_parse := iso_date;
     in_filter_limit := 30 |}.

(** A store from a list of documents, nothing issued yet. *)
Definition store (l : list (path * obj)) : world :=
  World (list_to_map l) [].

End Engine.


(* ===================================================================== *)
(** * Vocabulary of the statements *)
(* ===================================================================== *)

(** The entries of an option property when it is an array, none
    otherwise. *)
Definition elements (x : value) : list value :=
  match x with VArr l => l | _ => [] end.

Definition pageHeroRef : path := ["pageHero"; "homepageHero"].
Definition settingsRef : path := ["settings"; "defaultSettings"].

(** A stored settings document with a section named like a method every
    object inherits. *)
Definition settings_with_toString : obj :=
  <["toString" := VStr "x"]> defaultSettings.

(** A stored upsell whose id is a single space. *)
Definition blank_upsell_store : world :=
  Engine.store [(["upsells"; " "], {["visibility" := VStr "DRAFT"]})].

(** The comparator [cmp] is the difference of the keys, on the elements
    of [l]. *)
Definition agrees {A} (cmp : A → A → option Z) (key : A → Z) (l : list A)
    : Prop :=
  ∀ x y, x ∈ l → y ∈ l → cmp x y = Some (key x - key y)%Z.

(** The sort keys of an entity. *)
Definition time_of (rt : runtime) (o : obj) : option Z :=
  Date_getTime rt (get o "updatedAt").

Definition index_of (rt : runtime) (o : obj) : option Z :=
  ToNumber rt (get o "index").

Definition newest_first (rt : runtime) (a b : obj) : Prop :=
  ∃ ta tb, time_of rt a = Some ta ∧ time_of rt b = Some tb ∧ (tb ≤ ta)%Z.

Definition index_ascending (rt : runtime) (a b : obj) : Prop :=
  ∃ ia ib, index_of rt a = Some ia ∧ index_of rt b = Some ib ∧ (ia ≤ ib)%Z.

(** Every document of the collection has an [updatedAt] that is a date,
    respectively an [index] that is a number. *)
Definition dated (rt : runtime) (coll : string) (w : world) : Prop :=
  Forall (λ d, is_Some (time_of rt (q_data d)))
         (collection_docs coll (docs w)).

Definition indexed (rt : runtime) (coll : string) (w : world) : Prop :=
  Forall (λ d, is_Some (index_of rt (q_data d)))
         (collection_docs coll (docs w)).

(** The same for the entries of a [products] list inside a document. *)
Definition item_index (rt : runtime) (v : value) : option Z :=
  match v with VObj o => index_of rt o | _ => None end.

Definition item_ascending (rt : runtime) (a b : value) : Prop :=
  ∃ ia ib, item_index rt a = Some ia ∧ item_index rt b = Some ib
           ∧ (ia ≤ ib)%Z.

Definition item_minus (rt : runtime) (a b : value) : option Z :=
  match item_index rt a, item_index rt b with
  | Some x, Some y => Some (x - y)%Z
  | _, _ => None
  end.

(** ** A small catalog for the examples *)

(** An object literal. *)
Definition object (l : list (string * value)) : obj := list_to_map l.

Definition shirt : obj :=
  object [("id", VStr "p1"); ("name", VStr "Shirt"); ("slug", VStr "shirt");
          ("updatedAt", VStr "2024-01-05"); ("visibility", VStr "PUBLISHED");
          ("images", VObj (object [("main", VStr "shirt.png")]));
          ("pricing", VObj (object [("basePrice", VNum 20)]));
          ("upsell", VStr "u1")].

Definition hat : obj :=
  object [("id", VStr "p2"); ("name", VStr "Hat"); ("slug", VStr "hat");
          ("updatedAt", VStr "2024-03-01T10:00:00.000Z");
          ("visibility", VStr "DRAFT");
          ("images", VObj (object [("main", VStr "hat.png")]));
          ("pricing", VObj (object [("basePrice", VNum 15)]))].

(** A product whose upsell reference points to no document. *)
Definition scarf : obj :=
  object [("id", VStr "p3"); ("name", VStr "Scarf"); ("slug", VStr "scarf");
          ("updatedAt", VStr "2024-02-10"); ("visibility", VStr "PUBLISHED");
          ("images", VObj (object [("main", VStr "scarf.png")]));
          ("pricing", VObj (object [("basePrice", VNum 9)]));
          ("upsell", VStr "u9")].

(** The snapshots an upsell stores: one of a product that was renamed
    since ([hat]), one of a product that was deleted ([gone]), one of
    [shirt]; two of them have the same index. *)
Definition hat_snapshot : value :=
  VObj (object [("index", VNum 2); ("id", VStr "p2"); ("name", VStr "Old hat");
                ("slug", VStr "old-hat"); ("mainImage", VStr "old.png");
                ("basePrice", VNum 12)]).

Definition gone_snapshot : value :=
  VObj (object [("index", VNum 1); ("id", VStr "gone"); ("name", VStr "Gone");
                ("slug", VStr "gone"); ("mainImage", VStr "gone.png");
                ("basePrice", VNum 5)]).

Definition shirt_snapshot : value :=
  VObj (object [("index", VNum 1); ("id", VStr "p1"); ("name", VStr "Shirt");
                ("slug", VStr "shirt"); ("mainImage", VStr "shirt.png");
                ("basePrice", VNum 20)]).

Definition bundle : obj :=
  object [("updatedAt", VStr "2024-02-01"); ("visibility", VStr "PUBLISHED");
          ("products", VArr [hat_snapshot; gone_snapshot; shirt_snapshot])].

Definition clearance : obj :=
  object [("updatedAt", VStr "2024-04-01"); ("visibility", VStr "DRAFT");
          ("products", VArr [])].

Definition summer : obj :=
  object [("index", VNum 2); ("title", VStr "Summer");
          ("collectionType", VStr "FEATURED");
          ("updatedAt", VStr "2024-01-01"); ("visibility", VStr "PUBLISHED");
          ("products",
           VArr [VObj (object [("id", VStr "p2"); ("index", VNum 1)]);
                 VObj (object [("id", VStr "gone"); ("index", VNum 2)])])].

Definition winter : obj :=
  object [("index", VNum 1); ("title", VStr "Winter");
          ("collectionType", VStr "BANNER");
          ("updatedAt", VStr "2024-01-02"); ("visibility", VStr "HIDDEN");
          ("products", VArr [])].

Definition catalog : world :=
  Engine.store
    [(["products"; "p1"], shirt); (["products"; "p2"], hat);
     (["products"; "p3"], scarf);
     (["upsells"; "u1"], bundle); (["upsells"; "u2"], clearance);
     (["collections"; "c1"], summer); (["collections"; "c2"], winter);
     (["categories"; "k1"],
      object [("index", VNum 3); ("name", VStr "Tops")]);
     (["categories"; "k2"],
      object [("index", VNum 1); ("name", VStr "Hats")])].

Definition byId (id : string) (fields : list string) : SingleItemOptionsType :=
  {| si_id := VStr id; si_fields := VArr (VStr <$> fields) |}.

Definition all (fields : list string) : BaseOptionsType :=
  {| b_fields := VArr (VStr <$> fields); b_visibility := VUndef |}.

(** ** The projection rule, in the words of the specification *)

(** The requested fields that exist on the stored document. *)
Definition requested (fields : list string) (data : obj) : obj :=
  filter (λ kv, kv.1 ∈ fields) data.

(** No field list means all fields. *)
Definition projection (fields : list string) (data : obj) : obj :=
  match fields with
  | [] => data
  | _ => requested fields data
  end.

(** No stored document has a field named like the method the projection
    calls on it. *)
Definition unshadowed (w : world) : Prop :=
  map_Forall (λ _ data, data !! "hasOwnProperty" = None) (docs w).

(** The fields a list read puts on every product, whatever was requested. *)
Definition carried (data entry : obj) (keys : list string) : Prop :=
  Forall (λ k, entry !! k = Some (get data k)) keys.

(** What a list read returns for one product document: the projection with
    the id, and always [updatedAt] and [visibility]. *)
Definition product_entry (fields : list string) (d : QueryDocumentSnapshot)
    : obj :=
  <["visibility" := get (q_data d) "visibility"]>
    (<["updatedAt" := get (q_data d) "updatedAt"]>
       (spread (projection fields (q_data d)) {["id" := VStr (q_id d)]})).

(** ** Collections and their product references *)

(** The object literal [getCollections] returns for one document, around
    the selected fields. *)
Definition collection_frame (d : QueryDocumentSnapshot) (selectedFields : obj)
    : obj :=
  <["collectionType" := get (q_data d) "collectionType"]>
    (<["visibility" := get (q_data d) "visibility"]>
       (<["index" := get (q_data d) "index"]>
          (<["updatedAt" := get (q_data d) "updatedAt"]>
             (spread selectedFields {["id" := VStr (q_id d)]})))).

(** [data.products || []], when that is an array. *)
Definition references (data : obj) : option (list value) :=
  match get data "products" with
  | VArr l => Some l
  | v => if truthy v then None else Some []
  end.

(** [ref] is the object [o], which refers to the product of the plain id
    [s]. *)
Definition reference_to (s : string) (o : obj) (ref : value) : Prop :=
  ref = VObj o ∧ o !! "id" = Some (VStr s)
  ∧ doc_path "products" (VStr s) = Ok ["products"; s].

Definition is_reference (ref : value) : Prop :=
  ∃ s o, reference_to s o ref.

(** The entry the expansion makes of a reference: the reference's id and
    index alone when the product is not stored, else over the stored
    product. *)
Definition expansion_of (m : gmap path obj) (ref item : value) : Prop :=
  ∃ s o, reference_to s o ref ∧
    match m !! ["products"; s] with
    | None => item = VObj (<["index" := get o "index"]> {["id" := VStr s]})
    | Some product =>
        item = VObj (<["index" := get o "index"]> (<["id" := VStr s]> product))
    end.

(** The collections of a query hold lists of references. *)
Definition well_referenced (snapshot : list QueryDocumentSnapshot) : Prop :=
  Forall (λ d, ∃ refs, references (q_data d) = Some refs
                       ∧ Forall is_reference refs) snapshot.

(** Reading the examples: the ids of a returned list, a field of a
    returned object. *)
Definition ids_of (r : outcome (option (list obj)) * world)
    : option (list value) :=
  match r.1 with
  | Ok (Some l) => Some ((λ o, get o "id") <$> l)
  | _ => None
  end.

Definition field_of (r : outcome (option obj) * world) (k : string)
    : option value :=
  match r.1 with
  | Ok (Some o) => o !! k
  | _ => None
  end.

(** What [getCollections] returns for one document under a non-empty
    field list: its id, the requested fields that exist, always the four
    carried fields, and a [products] list exactly when it was requested. *)
Definition collection_rule (fields : list string) (d : QueryDocumentSnapshot)
    (e : obj) : Prop :=
  (∀ k, k ∉ ["id"; "updatedAt"; "index"; "visibility"; "collectionType";
             "products"] →
        e !! k = requested fields (q_data d) !! k)
  ∧ e !! "id" =
      Some (default (VStr (q_id d)) (requested fields (q_data d) !! "id"))
  ∧ (∀ k, k ∈ ["updatedAt"; "index"; "visibility"; "collectionType"] →
          e !! k = Some (get (q_data d) k))
  ∧ (if decide ("products" ∈ fields)
     then ∃ items, e !! "products" = Some (VArr items)
     else e !! "products" = None).

(** The store of the specification's example: one product with a name and
    a pricing; and one collection with a title. *)
Definition one_product : world :=
  Engine.store
    [(["products"; "X"],
      object [("name", VStr "A");
              ("pricing", VObj (object [("basePrice", VNum 10)]))])].

Definition one_collection : world :=
  Engine.store
    [(["collections"; "C"],
      object [("title", VStr "T"); ("index", VNum 1)])].

(** ** Upsells and the products they refer to *)

Definition nullish (v : value) : bool :=
  match v with VUndef | VNull => true | _ => false end.

(** [o.a.b], where [o.a] is not [null] or [undefined]. *)
Definition nested (o : obj) (a b : string) : value :=
  match get o a with VObj x => get x b | _ => VUndef end.

(** The stored product an item of an upsell refers to. *)
Definition referred (m : gmap path obj) (item : value) : option obj :=
  match item with
  | VObj o =>
      match get o "id" with
      | VStr s => m !! ["products"; s]
      | _ => None
      end
  | _ => None
  end.

(** An item that can be resolved without an exception: a reference by a
    plain id, to no document or to a product that has images and a
    pricing. *)
Definition resolvable (m : gmap path obj) (item : value) : Prop :=
  ∃ s o, reference_to s o item ∧
    ∀ product, m !! ["products"; s] = Some product →
      nullish (get product "images") = false
      ∧ nullish (get product "pricing") = false.

(** The object the resolution builds from the item [o] of the upsell and
    the stored product. *)
Definition resolved_snapshot (o product : obj) : obj :=
  <["basePrice" := nested product "pricing" "basePrice"]>
    (<["mainImage" := nested product "images" "main"]>
       (<["slug" := get product "slug"]>
          (<["id" := get product "id"]>
             (<["name" := get o "name"]>
                {["index" := get o "index"]})))).

Definition resolve (m : gmap path obj) (item : value) : option obj :=
  match item with
  | VObj o => resolved_snapshot o <$> referred m item
  | _ => None
  end.

(** Where the fields of a resolved entry come from: [slug], [mainImage],
    [basePrice] and [id] from the stored product, [index] and [name] from
    the item stored in the upsell. *)
Definition resolution_of (m : gmap path obj) (item entry : value) : Prop :=
  ∃ o product e,
    item = VObj o ∧ referred m item = Some product ∧ entry = VObj e
    ∧ e !! "slug" = Some (get product "slug")
    ∧ e !! "mainImage" = Some (nested product "images" "main")
    ∧ e !! "basePrice" = Some (nested product "pricing" "basePrice")
    ∧ e !! "id" = Some (get product "id")
    ∧ e !! "index" = Some (get o "index")
    ∧ e !! "name" = Some (get o "name").

(** An entry that stands for the item. *)
Definition entry_of (item entry : value) : Prop :=
  ∃ o e, item = VObj o ∧ entry = VObj e
         ∧ e !! "index" = Some (get o "index").

(** The resolved [products] list inside the [upsell] of a returned
    product. *)
Definition upsell_products (r : outcome (option obj) * world)
    : option (list value) :=
  match field_of r "upsell" with
  | Some (VObj details) =>
      match details !! "products" with
      | Some (VArr l) => Some l
      | _ => None
      end
  | _ => None
  end.

(** The checks of [reference_to] and [resolvable], as functions. *)
Definition plain_product_id (s : string) : bool :=
  match doc_path "products" (VStr s) with
  | Ok [c; i] => String.eqb c "products" && String.eqb i s
  | _ => false
  end.

Definition resolvableb (m : gmap path obj) (item : value) : bool :=
  match item with
  | VObj o =>
      match o !! "id" with
      | Some (VStr s) =>
          plain_product_id s &&
          match m !! ["products"; s] with
          | Some product =>
              negb (nullish (get product "images"))
              && negb (nullish (get product "pricing"))
          | None => true
          end
      | _ => false
      end
  | _ => false
  end.

(* ===================================================================== *)
(** * Vocabulary of the further properties *)
(* ===================================================================== *)

(** A computation that leaves the stored documents as they are, on every
    world and whatever it returns. *)
Definition reads_only {A} (m : M A) : Prop :=
  ∀ w, docs (m w).2 = docs w.

(** No key of the document is the name of a member that every object
    inherits. *)
Definition plain_keys (o : obj) : Prop :=
  map_Forall (λ k _, k ∉ Object_prototype) o.

(** A stored settings document with a section the schema does not have,
    and without the section it has. *)
Definition stale_settings : obj :=
  object [("theme", VStr "dark")].

(** Ids with a repetition and an id that is not stored, under a visibility
    in lower case. *)
Definition someIds : GetProductsByIdsOptionsType :=
  {| mi_ids := VArr [VStr "p1"; VStr "p1"; VStr "nope"; VStr "p2"];
     mi_fields := VUndef;
     mi_visibility := VStr "published" |}.

Definition published : BaseOptionsType :=
  {| b_fields := VUndef; b_visibility := VStr "PUBLISHED" |}.

(** An item of an upsell whose product is stored without images or without
    a pricing. *)
Definition unresolvable (m : gmap path obj) (item : value) : Prop :=
  ∃ s o product,
    reference_to s o item
    ∧ m !! ["products"; s] = Some product
    ∧ (nullish (get product "images") = true
       ∨ nullish (get product "pricing") = true).

(** A product [a] whose upsell refers to the product [b], which is stored
    with a name only. *)
Definition broken_catalog : world :=
  Engine.store
    [(["products"; "a"], object [("name", VStr "A"); ("upsell", VStr "u")]);
     (["products"; "b"], object [("name", VStr "B")]);
     (["upsells"; "u"],
      object [("products",
               VArr [VObj (object [("id", VStr "b"); ("index", VNum 0)])])])].

(** The same requested fields, listed differently. *)
Definition same_fields (fields fields' : list string) : Prop :=
  fields ≠ [] ∧ fields' ≠ [] ∧ ∀ k, k ∈ fields ↔ k ∈ fields'.

(** The operations a call sends to the store: what it adds to the trace. *)
Definition sends {A} (m : M A) (w : world) (ops : list op) : Prop :=
  trace (m w).2 = trace w ++ ops.

Definition at_most_one_operation {A} (m : M A) : Prop :=
  ∀ w, ∃ ops, sends m w ops ∧ length ops ≤ 1.

(** The point read the expansion makes for one reference of a collection. *)
Definition product_read (ref : value) : list op :=
  match ref with
  | VObj o =>
      match o !! "id" with
      | Some (VStr s) => [Read ["products"; s]]
      | _ => []
      end
  | _ => []
  end.

(** The reads for the references of one collection document. *)
Definition product_reads (d : QueryDocumentSnapshot) : list op :=
  default [] (references (q_data d)) ≫= product_read.


(* ===================================================================== *)
(** * Properties *)
(* ===================================================================== *)

(** Unfolding the monad of the repository on a given world. *)
Ltac run :=
  repeat (unfold mbind, M_bind, mret, M_ret, lift, throw, doc, getDoc,
            setDoc, getDocs;
          cbn beta iota zeta
            delta [docs trace snap_id snap_data fst snd sm_ids sm_fields
                   sm_visibility ss_id ss_fields si_id si_fields
                   sanitizeBaseOptions sanitizeSingleItemOptions]).

Lemma doc_pageHero : doc_path "pageHero" (VStr "homepageHero") = Ok pageHeroRef.
Proof. reflexivity. Qed.

Lemma doc_settings :
  doc_path "settings" (VStr "defaultSettings") = Ok settingsRef.
Proof. reflexivity. Qed.

(** ** The sanitizers *)

Lemma omap_as_string_fmap (l : list value) :
  Forall (λ v, is_nonblank_string v = true) l →
  VStr <$> omap as_string l = l.
Proof.
  induction 1 as [|v l Hv _ IH]; [done|].
  destruct v; try discriminate. csimpl. by rewrite IH.
Qed.

Lemma filter_strings_filter (x : value) :
  VStr <$> filter_strings x =
  filter (λ v, is_nonblank_string v = true) (elements x).
Proof.
  destruct x; try done. simpl.
  apply omap_as_string_fmap, Forall_forall.
  intros v Hv. by apply list_elem_of_filter in Hv as [? _].
Qed.


(** The examples of the specification. *)
Example sanitize_published :
  sm_visibility (sanitizeMultiItemOptions
    {| mi_ids := VUndef; mi_fields := VUndef;
       mi_visibility := VStr "published" |}) = VStr "PUBLISHED".
Proof. reflexivity. Qed.

Example sanitize_bogus :
  sm_visibility (sanitizeMultiItemOptions
    {| mi_ids := VUndef; mi_fields := VUndef;
       mi_visibility := VStr "bogus" |}) = VUndef.
Proof. reflexivity. Qed.

Example sanitize_ids_keep_duplicates :
  sm_ids (sanitizeMultiItemOptions
    {| mi_ids := VArr [VStr "a"; VNum 1; VStr "  "; VStr "a"; VNull; VStr " b"];
       mi_fields := VNull; mi_visibility := VNum 3 |}) = ["a"; "a"; " b"].
Proof. reflexivity. Qed.

(** ** The page hero *)

(** C6: [getPageHero] always resolves to a document.  Without a stored
    document at [pageHero/homepageHero] it writes the default (empty
    images, title and destination, hidden) and returns it with the id, and
    the next call returns the same content; with a stored document it
    returns that document, every stored field with its stored value, with
    the id attached, and writes nothing. *)
Theorem getPageHero_bootstrap (w : world) :
  match docs w !! pageHeroRef with
  | None =>
      getPageHero w =
        (Ok (<["id" := VStr "homepageHero"]> defaultPageHero),
         World (<[pageHeroRef := defaultPageHero]> (docs w))
               (trace w ++ [Read pageHeroRef; Write pageHeroRef defaultPageHero]))
      ∧ (getPageHero (getPageHero w).2).1 = (getPageHero w).1
      ∧ defaultPageHero !! "images" =
          Some (VObj (<["desktop" := VStr ""]> {["mobile" := VStr ""]}))
      ∧ defaultPageHero !! "title" = Some (VStr "")
      ∧ defaultPageHero !! "destinationUrl" = Some (VStr "")
      ∧ defaultPageHero !! "visibility" = Some (VStr "HIDDEN")
  | Some stored =>
      ∃ r, getPageHero w =
             (Ok r, World (docs w) (trace w ++ [Read pageHeroRef]))
        ∧ (∀ k, k ≠ "id" → r !! k = stored !! k)
        ∧ r !! "id" = Some (default (VStr "homepageHero") (stored !! "id"))
  end.
Proof.
  assert (Hid : List.last pageHeroRef "" = "homepageHero") by reflexivity.
  destruct (docs w !! pageHeroRef) as [stored|] eqn:Hdoc.
  - exists (spread stored {["id" := VStr "homepageHero"]}).
    split; [|split].
    + unfold getPageHero. run. rewrite doc_pageHero. run.
      by rewrite Hdoc, Hid.
    + intros k Hk. unfold spread. rewrite lookup_union.
      rewrite lookup_singleton_ne by done. by destruct (stored !! k).
    + unfold spread. rewrite lookup_union, lookup_singleton_eq.
      by destruct (stored !! "id").
  - assert (Hfirst : getPageHero w =
        (Ok (<["id" := VStr "homepageHero"]> defaultPageHero),
         World (<[pageHeroRef := defaultPageHero]> (docs w))
               (trace w ++ [Read pageHeroRef; Write pageHeroRef defaultPageHero]))).
    { unfold getPageHero. run. rewrite doc_pageHero. run.
      rewrite Hdoc, Hid. run. by rewrite <- app_assoc. }
    split; [exact Hfirst|]. split; [|done].
    rewrite Hfirst. unfold getPageHero. run. rewrite doc_pageHero. run.
    by rewrite lookup_insert_eq, Hid.
Qed.

(** ** The settings *)

Lemma keys_defaultSettings : keys defaultSettings = ["categorySection"].
Proof. reflexivity. Qed.

Lemma js_in_defaultSettings (k : string) :
  js_in k defaultSettings =
  bool_decide (k = "categorySection") || bool_decide (k ∈ Object_prototype).
Proof.
  unfold js_in, defaultSettings. f_equal.
  apply bool_decide_ext. rewrite lookup_singleton_is_Some. naive_solver.
Qed.

Lemma elem_of_keys (o : obj) (k : string) : k ∈ keys o ↔ is_Some (o !! k).
Proof.
  unfold keys. rewrite list_elem_of_fmap. split.
  - intros [[k' v] [-> Hin]]. apply elem_of_map_to_list in Hin. by exists v.
  - intros [v Hv]. exists (k, v). split; [done|].
    by apply elem_of_map_to_list.
Qed.

(** The second loop of [getSettings], over any list of keys. *)
Lemma foldl_drop_extra (ks : list string) (m : obj) (b : bool) (k : string) :
  (foldl drop_extra (m, b) ks).1 !! k =
    (if bool_decide (k ∈ ks) && negb (js_in k defaultSettings)
     then None else m !! k)
  ∧ (foldl drop_extra (m, b) ks).2 =
    b || existsb (λ k', negb (js_in k' defaultSettings)) ks.
Proof.
  revert m b. induction ks as [|k' ks IH]; intros m b.
  - simpl. split; [done|]. by rewrite orb_false_r.
  - simpl. unfold drop_extra at 2 4. simpl.
    destruct (js_in k' defaultSettings) eqn:Hk'; simpl.
    + destruct (IH m b) as [-> ->]. split; [|done].
      destruct (decide (k = k')) as [->|Hne].
      * rewrite Hk'. simpl. by rewrite !andb_false_r.
      * replace (bool_decide (k ∈ k' :: ks)) with (bool_decide (k ∈ ks));
          [done|].
        apply bool_decide_ext. rewrite elem_of_cons. intuition congruence.
    + destruct (IH (delete k' m) true) as [-> ->]. split.
      * destruct (decide (k = k')) as [->|Hne].
        -- rewrite Hk', lookup_delete_eq. simpl.
           rewrite (bool_decide_eq_true_2 (k' ∈ k' :: ks)) by left.
           by destruct (bool_decide (k' ∈ ks)).
        -- rewrite lookup_delete_ne by done.
           replace (bool_decide (k ∈ k' :: ks)) with (bool_decide (k ∈ ks));
             [done|].
           apply bool_decide_ext. rewrite elem_of_cons. intuition congruence.
      * by rewrite orb_true_r.
Qed.

Lemma add_missing_categorySection (stored : obj) :
  add_missing (stored, false) "categorySection" =
    if bool_decide (is_Some (stored !! "categorySection"))
    then (stored, false)
    else (<["categorySection" := get defaultSettings "categorySection"]> stored,
          true).
Proof.
  unfold add_missing, js_in. cbn [fst].
  assert (bool_decide ("categorySection" ∈ Object_prototype) = false) as ->
    by reflexivity.
  rewrite orb_false_r. by case_bool_decide.
Qed.

Lemma reconcile_lookup (stored : obj) (k : string) :
  (reconcile stored).1 !! k =
    if js_in k defaultSettings
    then (if bool_decide (k = "categorySection")
          then Some (default (get defaultSettings k) (stored !! k))
          else stored !! k)
    else None.
Proof.
  unfold reconcile. rewrite keys_defaultSettings. cbn [foldl].
  set (st := add_missing (stored, false) "categorySection").
  destruct (foldl_drop_extra (keys st.1) st.1 st.2 k) as [H _].
  rewrite <- surjective_pairing in H. rewrite H. clear H.
  assert (Hst : st.1 !! k =
      if bool_decide (k = "categorySection")
      then Some (default (get defaultSettings k) (stored !! k))
      else stored !! k).
  { subst st. rewrite add_missing_categorySection.
    case_bool_decide as Hs; cbn [fst].
    - case_bool_decide as Hk; [|done]. subst k. by destruct Hs as [v ->].
    - case_bool_decide as Hk.
      + subst k. rewrite lookup_insert_eq.
        apply eq_None_not_Some in Hs. by rewrite Hs.
      + by rewrite lookup_insert_ne. }
  destruct (js_in k defaultSettings) eqn:Hin; simpl.
  - by rewrite andb_false_r.
  - rewrite andb_true_r. clear Hst.
    destruct (st.1 !! k) eqn:E; [|by destruct (bool_decide _)].
    rewrite bool_decide_eq_true_2; [done|]. apply elem_of_keys. eauto.
Qed.

Lemma reconcile_needsUpdate (stored : obj) :
  (reconcile stored).2 = false → (reconcile stored).1 = stored.
Proof.
  intros Hn. apply map_eq. intros k. rewrite reconcile_lookup.
  revert Hn. unfold reconcile. rewrite keys_defaultSettings. cbn [foldl].
  set (st := add_missing (stored, false) "categorySection").
  destruct (foldl_drop_extra (keys st.1) st.1 st.2 k) as [_ H].
  rewrite <- surjective_pairing in H. rewrite H. clear H.
  intros [Hst Hex]%orb_false_iff.
  assert (Hcur : st.1 = stored ∧ is_Some (stored !! "categorySection")).
  { revert Hst. subst st. rewrite add_missing_categorySection.
    by case_bool_decide. }
  destruct Hcur as [Hcur [v Hv]]. rewrite Hcur in Hex.
  destruct (js_in k defaultSettings) eqn:Hin.
  - case_bool_decide as Hk; [|done]. subst k. by rewrite Hv.
  - destruct (stored !! k) eqn:Hk; [|done]. exfalso.
    assert (Hel : k ∈ keys stored) by (apply elem_of_keys; eauto).
    assert (existsb (λ k', negb (js_in k' defaultSettings)) (keys stored) = true)
      as Hc; [|by rewrite Hc in Hex].
    apply existsb_exists. exists k. split; [by apply list_elem_of_In|].
    by rewrite Hin.
Qed.

Lemma reconcile_changed (stored : obj) :
  (reconcile stored).2 = true → (reconcile stored).1 ≠ stored.
Proof.
  unfold reconcile at 1. rewrite keys_defaultSettings. cbn [foldl].
  set (st := add_missing (stored, false) "categorySection").
  destruct (foldl_drop_extra (keys st.1) st.1 st.2 "") as [_ H].
  rewrite <- surjective_pairing in H. rewrite H. clear H.
  intros [Hst|Hex]%orb_true_iff Heq.
  - revert Hst. subst st. rewrite add_missing_categorySection.
    case_bool_decide as Hs; [done|]. intros _.
    apply Hs. rewrite <- Heq, reconcile_lookup. done.
  - apply existsb_exists in Hex as (k & Hk%list_elem_of_In & Hnot).
    apply negb_true_iff in Hnot.
    assert (Hst : is_Some (stored !! k)).
    { apply elem_of_keys in Hk. revert Hk. subst st.
      rewrite add_missing_categorySection.
      case_bool_decide; cbn [fst]; [done|].
      destruct (decide (k = "categorySection")) as [->|Hne].
      - rewrite js_in_defaultSettings in Hnot. exfalso. clear -Hnot.
        vm_compute in Hnot. discriminate Hnot.
      - by rewrite lookup_insert_ne. }
    rewrite <- Heq, reconcile_lookup, Hnot in Hst. by destruct Hst.
Qed.

Lemma getSettings_absent (w : world) :
  docs w !! settingsRef = None →
  getSettings w =
    (Ok defaultSettings,
     World (<[settingsRef := defaultSettings]> (docs w))
           (trace w ++ [Read settingsRef; Write settingsRef defaultSettings])).
Proof.
  intros Hdoc. unfold getSettings. run. rewrite doc_settings. run.
  rewrite Hdoc. run. by rewrite <- app_assoc.
Qed.

(** On a stored document the result is the reconciled document, and the
    store is written exactly when reconciliation changed it. *)
Lemma getSettings_present (w : world) (stored : obj) :
  docs w !! settingsRef = Some stored →
  let r := (reconcile stored).1 in
  getSettings w =
    (Ok r,
     if (reconcile stored).2
     then World (<[settingsRef := r]> (docs w))
                (trace w ++ [Read settingsRef; Write settingsRef r])
     else World (docs w) (trace w ++ [Read settingsRef]))
  ∧ ((reconcile stored).2 = true ↔ r ≠ stored).
Proof.
  intros Hdoc r. split.
  - unfold getSettings. run. rewrite doc_settings. run.
    rewrite Hdoc. subst r.
    destruct (reconcile stored) as [cur needsUpdate] eqn:Hrec.
    cbn [fst snd]. destruct needsUpdate; run; [|done].
    by rewrite <- app_assoc.
  - subst r. split; [apply reconcile_changed|].
    intros Hne. destruct (reconcile stored).2 eqn:Hn; [done|].
    exfalso. exact (Hne (reconcile_needsUpdate _ Hn)).
Qed.

(** When no stored key is the name of an inherited member, the reconciled
    document has exactly the keys of the default schema: a missing key
    comes with its default value, a stored one keeps its value. *)
Lemma reconcile_key_set (stored : obj) :
  (∀ k, is_Some (stored !! k) → k ∉ Object_prototype) →
  dom (reconcile stored).1 = dom defaultSettings
  ∧ (reconcile stored).1 !! "categorySection" =
      Some (default (VObj {["visibility" := VStr "HIDDEN"]})
                    (stored !! "categorySection")).
Proof.
  intros Hplain. split.
  - apply set_eq. intros k. rewrite !elem_of_dom, reconcile_lookup.
    rewrite js_in_defaultSettings.
    unfold defaultSettings. rewrite lookup_singleton_is_Some.
    case_bool_decide as Hk; simpl.
    + subst k. split; [done|]. intros _. eauto.
    + case_bool_decide as Hp; simpl.
      * split; [|done]. intros Hs. by apply Hplain in Hs.
      * split; [by intros []|done].
  - by rewrite reconcile_lookup.
Qed.

(** C5: on a stored settings document that has a key named like an
    inherited member ([toString]), [getSettings] returns the document with
    that key still in it and writes nothing back, so the returned key set
    is not the key set of the default schema. *)
Theorem getSettings_keeps_inherited_name :
  let w := Engine.store [(settingsRef, settings_with_toString)] in
  getSettings w =
    (Ok settings_with_toString, World (docs w) [Read settingsRef])
  ∧ dom settings_with_toString ≠ dom defaultSettings.
Proof.
  split; [vm_compute; reflexivity|].
  intros Heq.
  assert (Hin : "toString" ∈ dom settings_with_toString).
  { apply elem_of_dom. by eexists. }
  rewrite Heq in Hin. apply elem_of_dom in Hin as [v Hv].
  by vm_compute in Hv.
Qed.

Example getSettings_adds_categorySection :
  let w := Engine.store [(settingsRef, ∅)] in
  getSettings w =
    (Ok defaultSettings,
     World (<[settingsRef := defaultSettings]> (docs w))
           [Read settingsRef; Write settingsRef defaultSettings]).
Proof. vm_compute. reflexivity. Qed.

(** ** Absence *)

(** The guarded list reads resolve to [null] on an empty result set. *)
Lemma getProducts_empty (rt : runtime) (options : BaseOptionsType)
    (fs : list QueryConstraint) (w : world) :
  visibility_constraint (b_visibility options) = Ok fs →
  select "products" fs (docs w) = [] →
  getProducts rt options w =
    (Ok None, World (docs w) (trace w ++ [Query "products" fs])).
Proof.
  intros Hfs Hsel. unfold getProducts. run. rewrite Hfs. run.
  by rewrite Hsel.
Qed.

Lemma getCollections_empty (rt : runtime) (options : BaseOptionsType)
    (fs : list QueryConstraint) (w : world) :
  visibility_constraint (b_visibility options) = Ok fs →
  select "collections" fs (docs w) = [] →
  getCollections rt options w =
    (Ok None, World (docs w) (trace w ++ [Query "collections" fs])).
Proof.
  intros Hfs Hsel. unfold getCollections. run. rewrite Hfs. run.
  by rewrite Hsel.
Qed.

Lemma getProductsByIds_empty (rt : runtime)
    (options : GetProductsByIdsOptionsType)
    (byName : QueryConstraint) (fs : list QueryConstraint) (w : world) :
  let sanitized := sanitizeMultiItemOptions options in
  sm_ids sanitized ≠ [] →
  where_in rt (sm_ids sanitized) = Ok byName →
  visibility_constraint (sm_visibility sanitized) = Ok fs →
  select "products" (byName :: fs) (docs w) = [] →
  getProductsByIds rt options w =
    (Ok None, World (docs w) (trace w ++ [Query "products" (byName :: fs)])).
Proof.
  intros sanitized Hne Hin Hfs Hsel. unfold getProductsByIds.
  fold sanitized.
  destruct (sm_ids sanitized) as [|i ids] eqn:Hids; [done|].
  run. rewrite Hin. run. rewrite Hfs. run.
  by rewrite Hsel.
Qed.

Lemma getCategories_empty (rt : runtime) (w : world) :
  select "categories" [] (docs w) = [] →
  getCategories rt w =
    (Ok None, World (docs w) (trace w ++ [Query "categories" []])).
Proof. intros Hsel. unfold getCategories. run. by rewrite Hsel. Qed.

(** C2: [getUpsells] has no guard for the empty result set: on a store
    without upsells it resolves to the empty list, not to [null]. *)
Theorem getUpsells_empty_list (rt : runtime) :
  getUpsells rt (Engine.store []) =
    (Ok (Some []), World ∅ [Query "upsells" []]).
Proof. reflexivity. Qed.

(** The guards on a blank id and on an empty id list answer [null] before
    anything is sent to the store. *)
Lemma getEntity_blank_id (coll : string) (id : string) (fields : value)
    (w : world) :
  trim id = "" →
  getEntity coll {| si_id := VStr id; si_fields := fields |} w = (Ok None, w).
Proof. intros Hid. unfold getEntity. run. by rewrite Hid. Qed.

Lemma getProductsByIds_no_ids (rt : runtime)
    (options : GetProductsByIdsOptionsType) (w : world) :
  sm_ids (sanitizeMultiItemOptions options) = [] →
  getProductsByIds rt options w = (Ok None, w).
Proof. intros Hids. unfold getProductsByIds. by rewrite Hids. Qed.

Example getProduct_empty_id (w : world) :
  getProduct {| si_id := VStr ""; si_fields := VUndef |} w = (Ok None, w).
Proof. by apply getEntity_blank_id. Qed.

Example getProductsByIds_empty_ids (rt : runtime) (w : world) :
  getProductsByIds rt
    {| mi_ids := VArr []; mi_fields := VUndef; mi_visibility := VUndef |} w
  = (Ok None, w).
Proof. by apply getProductsByIds_no_ids. Qed.

(** C3: [getUpsell] takes the id as it is given.  With the empty id the
    document reference is rejected, so the call throws; with an id of one
    space, which trims to the empty string, it reads the store and returns
    the document stored under that id. *)
Theorem getUpsell_does_not_sanitize (rt : runtime) :
  getUpsell rt (VStr "") (Engine.store []) = (Throw, Engine.store [])
  ∧ trim " " = ""
  ∧ getUpsell rt (VStr " ") blank_upsell_store =
      (Ok (Some (<["products" := VArr []]>
                   (<["id" := VStr " "]> {["visibility" := VStr "DRAFT"]}))),
       World (docs blank_upsell_store) [Read ["upsells"; " "]]).
Proof. split; [|split]; vm_compute; reflexivity. Qed.

(** ** Sorting *)

Section SortLemmas.
Context {A : Type} (cmp : A → A → option Z) (key : A → Z).

#[local] Abbreviation agrees := (agrees cmp key).

Lemma agrees_Permutation (l l' : list A) : l ≡ₚ l' → agrees l → agrees l'.
Proof. intros Hp Hl x y Hx Hy. apply Hl; by rewrite Hp. Qed.

Lemma agrees_tail (x : A) (l : list A) : agrees (x :: l) → agrees l.
Proof. intros Hl a b Ha Hb. apply Hl; by right. Qed.

Lemma sort_insert_Permutation (x : A) (l : list A) :
  sort_insert cmp x l ≡ₚ x :: l.
Proof.
  induction l as [|y l IH]; [done|]. simpl.
  destruct (after (cmp x y)); [|done].
  rewrite IH. apply Permutation_swap.
Qed.

Lemma sort_with_Permutation (l : list A) : sort_with cmp l ≡ₚ l.
Proof.
  induction l as [|x l IH]; [done|]. simpl.
  by rewrite sort_insert_Permutation, IH.
Qed.

Lemma sort_insert_sorted (x : A) (l : list A) :
  agrees (x :: l) →
  StronglySorted (λ a b, key a ≤ key b)%Z l →
  StronglySorted (λ a b, key a ≤ key b)%Z (sort_insert cmp x l).
Proof.
  intros Hag Hs. induction Hs as [|y l Hs IH Hall].
  - simpl. by repeat constructor.
  - simpl. rewrite (Hag x y) by (rewrite !elem_of_cons; tauto).
    unfold after. destruct (0 <? key x - key y)%Z eqn:Hc.
    + apply Z.ltb_lt in Hc. constructor.
      * apply IH. intros a b Ha Hb. apply Hag.
        -- apply elem_of_cons in Ha as [->|?]; rewrite !elem_of_cons; tauto.
        -- apply elem_of_cons in Hb as [->|?]; rewrite !elem_of_cons; tauto.
      * rewrite sort_insert_Permutation. constructor; [lia|done].
    + apply Z.ltb_ge in Hc. constructor; [by constructor|].
      constructor; [lia|].
      eapply Forall_impl; [exact Hall|]. intros z Hz. simpl in Hz. lia.
Qed.

Lemma sort_with_sorted (l : list A) :
  agrees l → StronglySorted (λ a b, key a ≤ key b)%Z (sort_with cmp l).
Proof.
  induction l as [|x l IH]; intros Hag; [constructor|]. simpl.
  apply sort_insert_sorted.
  - eapply agrees_Permutation; [|exact Hag].
    by rewrite sort_with_Permutation.
  - apply IH. by eapply agrees_tail.
Qed.

(** Stability: the elements of one key keep their relative order. *)
Lemma sort_insert_stable (n : Z) (x : A) (l : list A) :
  agrees (x :: l) →
  filter (λ a, key a = n) (sort_insert cmp x l) =
  filter (λ a, key a = n) (x :: l).
Proof.
  induction l as [|y l IH]; intros Hag; [done|]. simpl.
  rewrite (Hag x y) by (rewrite !elem_of_cons; tauto).
  unfold after. destruct (0 <? key x - key y)%Z eqn:Hc; [|done].
  apply Z.ltb_lt in Hc.
  rewrite !filter_cons. rewrite IH.
  - rewrite filter_cons. repeat case_decide; try done; lia.
  - intros a b Ha Hb. apply Hag.
    + apply elem_of_cons in Ha as [->|?]; rewrite !elem_of_cons; tauto.
    + apply elem_of_cons in Hb as [->|?]; rewrite !elem_of_cons; tauto.
Qed.

Lemma sort_with_stable (n : Z) (l : list A) :
  agrees l →
  filter (λ a, key a = n) (sort_with cmp l) = filter (λ a, key a = n) l.
Proof.
  induction l as [|x l IH]; intros Hag; [done|]. simpl.
  rewrite sort_insert_stable.
  - rewrite !filter_cons, IH; [done|]. by eapply agrees_tail.
  - eapply agrees_Permutation; [|exact Hag].
    by rewrite sort_with_Permutation.
Qed.

(** A comparator that may throw but does not on the given elements sorts
    as the pure one. *)
Context (cmpM : A → A → outcome (option Z)) (P : A → Prop).
Context (cmpM_pure : ∀ x y, P x → P y → cmpM x y = Ok (cmp x y)).

Lemma sort_insertM_pure (x : A) (l : list A) :
  P x → Forall P l → sort_insertM cmpM x l = Ok (sort_insert cmp x l).
Proof using cmpM_pure.
  intros Hx Hl. induction Hl as [|y l Hy Hl IH]; [done|]. simpl.
  rewrite cmpM_pure by done. simpl.
  destruct (after (cmp x y)); [|done]. by rewrite IH.
Qed.

Lemma sort_withM_pure (l : list A) :
  Forall P l → sort_withM cmpM l = Ok (sort_with cmp l).
Proof using cmpM_pure.
  induction 1 as [|x l Hx Hl IH]; [done|]. simpl. rewrite IH. simpl.
  apply sort_insertM_pure; [done|].
  by rewrite sort_with_Permutation.
Qed.

End SortLemmas.

Lemma StronglySorted_on {A} (Q : A → Prop) (R R' : A → A → Prop) (l : list A) :
  (∀ a b, Q a → Q b → R a b → R' a b) →
  Forall Q l → StronglySorted R l → StronglySorted R' l.
Proof.
  intros Himp HQ Hs. induction Hs as [|x l Hs IH Hall]; [constructor|].
  apply Forall_cons in HQ as [Hx HQ]. constructor; [by apply IH|].
  apply Forall_forall. intros y Hy.
  rewrite Forall_forall in Hall, HQ. apply Himp; auto.
Qed.

Section Sorted.
Context (rt : runtime).

Lemma sortItems_Permutation (items : list obj) (key : string) (isDate : bool) :
  sortItems rt items key isDate ≡ₚ items.
Proof. apply sort_with_Permutation. Qed.

Lemma sortItems_newest_first (items : list obj) :
  Forall (λ o, is_Some (time_of rt o)) items →
  StronglySorted (newest_first rt) (sortItems rt items "updatedAt" true).
Proof.
  intros Hall.
  set (key := λ o : obj, (- default 0 (time_of rt o))%Z).
  apply (StronglySorted_on (λ o, is_Some (time_of rt o))
           (λ a b, key a ≤ key b)%Z).
  - intros a b [ta Ha] [tb Hb] Hab. exists ta, tb.
    subst key. simpl in Hab. rewrite Ha, Hb in Hab. simpl in Hab.
    repeat split; [done|done|lia].
  - by rewrite sortItems_Permutation.
  - apply sort_with_sorted. intros a b Ha Hb.
    rewrite Forall_forall in Hall.
    destruct (Hall a Ha) as [ta Hta], (Hall b Hb) as [tb Htb].
    subst key. simpl. unfold Date_minus. unfold time_of in *.
    rewrite Hta, Htb. simpl. f_equal. lia.
Qed.

Lemma sort_by_index_ascending (items : list obj) :
  Forall (λ o, is_Some (index_of rt o)) items →
  StronglySorted (index_ascending rt)
    (sort_with (λ a b, minus rt (get a "index") (get b "index")) items).
Proof.
  intros Hall.
  set (key := λ o : obj, default 0%Z (index_of rt o)).
  apply (StronglySorted_on (λ o, is_Some (index_of rt o))
           (λ a b, key a ≤ key b)%Z).
  - intros a b [ia Ha] [ib Hb] Hab. exists ia, ib.
    subst key. simpl in Hab. rewrite Ha, Hb in Hab. simpl in Hab.
    repeat split; [done|done|lia].
  - by rewrite sort_with_Permutation.
  - apply sort_with_sorted. intros a b Ha Hb.
    rewrite Forall_forall in Hall.
    destruct (Hall a Ha) as [ia Hia], (Hall b Hb) as [ib Hib].
    subst key. simpl. unfold minus. unfold index_of in *.
    by rewrite Hia, Hib.
Qed.

End Sorted.

(** ** The callbacks of the list reads *)

Lemma Array_map_Forall2 {A B} (f : A → outcome B) (l : list A) (r : list B) :
  Array_map f l = Ok r → Forall2 (λ x y, f x = Ok y) l r.
Proof.
  revert r. induction l as [|x l IH]; intros r; simpl.
  - intros [= <-]. constructor.
  - destruct (f x) as [y|] eqn:Hy; [|done]. simpl.
    destruct (Array_map f l) as [r'|]; [|done]. simpl.
    intros [= <-]. constructor; [done|]. by apply IH.
Qed.

Lemma promise_all_Forall2 {A} (ms : list (M A)) (w w' : world) (r : list A) :
  promise_all ms w = (Ok r, w') →
  Forall2 (λ m y, ∃ wa wb, m wa = (Ok y, wb)) ms r.
Proof.
  revert w w' r. induction ms as [|m ms IH]; intros w w' r; simpl.
  - intros [= <- <-]. constructor.
  - destruct (m w) as [o w1] eqn:Hm.
    destruct (promise_all ms w1) as [os w2] eqn:Hms.
    destruct o as [a|]; [|done]. destruct os as [l|]; [|done].
    intros [= <- <-]. constructor; [by eauto|]. by eapply IH.
Qed.

Lemma select_subseteq (coll : string) (fs : list QueryConstraint)
    (d : gmap path obj) (x : QueryDocumentSnapshot) :
  x ∈ select coll fs d → x ∈ collection_docs coll d.
Proof. unfold select. rewrite list_elem_of_filter. tauto. Qed.

Lemma get_lookup (o : obj) (k : string) (v : value) :
  o !! k = Some v → get o k = v.
Proof. intros H. unfold get. by rewrite H. Qed.

Lemma get_insert_eq (o : obj) (k : string) (v : value) :
  get (<[k := v]> o) k = v.
Proof. unfold get. by rewrite lookup_insert_eq. Qed.

Lemma get_insert_ne (o : obj) (k k' : string) (v : value) :
  k' ≠ k → get (<[k' := v]> o) k = get o k.
Proof. intros Hne. unfold get. by rewrite lookup_insert_ne. Qed.

Lemma get_spread_id (data : obj) (i : value) (k : string) :
  k ≠ "id" → get (spread data {["id" := i]}) k = get data k.
Proof.
  intros Hk. unfold get, spread. rewrite lookup_union.
  rewrite lookup_singleton_ne by done. by destruct (data !! k).
Qed.

Lemma productEntry_keys (fields : list string) (d : QueryDocumentSnapshot)
    (e : obj) :
  productEntry fields d = Ok e →
  get e "updatedAt" = get (q_data d) "updatedAt"
  ∧ get e "visibility" = get (q_data d) "visibility".
Proof.
  unfold productEntry. destruct (pick fields (q_data d)); [|done].
  simpl. intros [= <-].
  rewrite get_insert_ne, !get_insert_eq by done. done.
Qed.

Lemma collectionEntry_keys (fields : list string) (d : QueryDocumentSnapshot)
    (wa wb : world) (e : obj) :
  collectionEntry fields d wa = (Ok e, wb) →
  get e "index" = get (q_data d) "index"
  ∧ get e "updatedAt" = get (q_data d) "updatedAt"
  ∧ get e "visibility" = get (q_data d) "visibility"
  ∧ get e "collectionType" = get (q_data d) "collectionType".
Proof.
  unfold collectionEntry. run.
  destruct (select_fields fields (q_data d) ∅) as [sel|]; [|done].
  set (out := λ s : obj,
    <["collectionType" := get (q_data d) "collectionType"]>
      (<["visibility" := get (q_data d) "visibility"]>
         (<["index" := get (q_data d) "index"]>
            (<["updatedAt" := get (q_data d) "updatedAt"]>
               (spread s {["id" := VStr (q_id d)]}))))).
  assert (Hout : ∀ s, get (out s) "index" = get (q_data d) "index"
    ∧ get (out s) "updatedAt" = get (q_data d) "updatedAt"
    ∧ get (out s) "visibility" = get (q_data d) "visibility"
    ∧ get (out s) "collectionType" = get (q_data d) "collectionType").
  { intros s. subst out. cbn beta.
    repeat split;
      repeat (rewrite get_insert_ne by done); by rewrite get_insert_eq. }
  case_bool_decide; run.
  - destruct (as_array _) as [refs|]; [|done]. run.
    destruct (promise_all _ wa) as [[products|] w1]; [|done].
    intros [= <- <-]. apply Hout.
  - intros [= <- <-]. apply Hout.
Qed.

Lemma filter_defined (rt : runtime) (l : list value) :
  Forall (λ v, is_Some (item_index rt v)) l →
  filter (λ v, is_undefined v = false) l = l
  ∧ filter (λ v, is_undefined v = true) l = [].
Proof.
  induction 1 as [|v l [n Hv] _ [IH1 IH2]]; [done|].
  destruct v; try discriminate.
  rewrite !filter_cons. simpl. by rewrite IH1, IH2.
Qed.

Lemma filter_on {A} (P Q : A → Prop) `{!∀ x, Decision (P x)}
    `{!∀ x, Decision (Q x)} (R : A → Prop) (l : list A) :
  (∀ x, R x → P x ↔ Q x) → Forall R l → filter P l = filter Q l.
Proof.
  intros Hiff. induction 1 as [|x l Hx _ IH]; [done|].
  rewrite !filter_cons, IH. specialize (Hiff x Hx).
  repeat case_decide; tauto || done.
Qed.

(** The [products] list of an upsell, sorted by [a.index - b.index]. *)
Lemma Array_sort_by_index (rt : runtime) (items : list value) :
  Forall (λ v, is_Some (item_index rt v)) items →
  ∃ sorted,
    Array_sort (by_index rt) items = Ok sorted
    ∧ sorted ≡ₚ items
    ∧ StronglySorted (item_ascending rt) sorted
    ∧ ∀ n, filter (λ v, item_index rt v = Some n) sorted =
           filter (λ v, item_index rt v = Some n) items.
Proof.
  intros Hall. exists (sort_with (item_minus rt) items).
  set (key := λ v : value, default 0%Z (item_index rt v)).
  assert (Hag : agrees (item_minus rt) key items).
  { intros a b Ha Hb. rewrite Forall_forall in Hall.
    destruct (Hall a Ha) as [ia Hia], (Hall b Hb) as [ib Hib].
    subst key. unfold item_minus. simpl. by rewrite Hia, Hib. }
  assert (Hsorted : Forall (λ v, is_Some (item_index rt v))
                      (sort_with (item_minus rt) items))
    by (by rewrite sort_with_Permutation).
  split; [|split; [|split]].
  - unfold Array_sort. destruct (filter_defined rt items Hall) as [-> ->].
    rewrite (sort_withM_pure (item_minus rt) (by_index rt)
               (λ v, is_Some (item_index rt v))); [|clear|done].
    + simpl. by rewrite app_nil_r.
    + intros [] [] [? Hx] [? Hy]; try discriminate. done.
  - apply sort_with_Permutation.
  - apply (StronglySorted_on (λ v, is_Some (item_index rt v))
             (λ a b, key a ≤ key b)%Z); [|done|by apply sort_with_sorted].
    intros a b [ia Ha] [ib Hb] Hab. exists ia, ib.
    subst key. simpl in Hab. by rewrite Ha, Hb in Hab.
  - intros n.
    rewrite (filter_on _ (λ v, key v = n) (λ v, is_Some (item_index rt v))
               (sort_with (item_minus rt) items)); [|clear|done].
    + rewrite (filter_on (λ v, item_index rt v = Some n) (λ v, key v = n)
                 (λ v, is_Some (item_index rt v)) items); [|clear|done].
      * by apply sort_with_stable.
      * intros v [i Hi]. subst key. simpl. rewrite Hi. simpl.
        split; congruence.
    + intros v [i Hi]. subst key. simpl. rewrite Hi. simpl.
      split; congruence.
Qed.

Lemma Forall_select (P : QueryDocumentSnapshot → Prop) (coll : string)
    (fs : list QueryConstraint) (d : gmap path obj) :
  Forall P (collection_docs coll d) → Forall P (select coll fs d).
Proof.
  rewrite !Forall_forall. intros H x Hx. eapply H, select_subseteq, Hx.
Qed.

Section ListsSorted.
Context (rt : runtime) (w : world).

Lemma productEntries_dated (fields : list string)
    (fs : list QueryConstraint) (products : list obj) :
  dated rt "products" w →
  Array_map (productEntry fields) (select "products" fs (docs w))
    = Ok products →
  Forall (λ o, is_Some (time_of rt o)) products.
Proof.
  intros Hd Hmap. apply Array_map_Forall2 in Hmap.
  eapply Forall2_Forall_r; [exact Hmap|].
  eapply Forall_impl; [apply Forall_select, Hd|].
  intros d Hdate e [He _]%productEntry_keys.
  unfold time_of in *. by rewrite He.
Qed.

Lemma getProducts_sorted (options : BaseOptionsType) (l : list obj)
    (w' : world) :
  dated rt "products" w →
  getProducts rt options w = (Ok (Some l), w') →
  StronglySorted (newest_first rt) l.
Proof.
  intros Hd. unfold getProducts. run.
  destruct (visibility_constraint _) as [fs|]; [|done]. run.
  destruct (select "products" fs (docs w)) as [|d0 snapshot] eqn:Hsel;
    [done|].
  rewrite <- Hsel.
  destruct (Array_map _ _) as [products|] eqn:Hmap; [|done]. run.
  intros [= <- <-]. apply sortItems_newest_first.
  by eapply productEntries_dated.
Qed.

Lemma getProductsByIds_sorted (options : GetProductsByIdsOptionsType)
    (l : list obj) (w' : world) :
  dated rt "products" w →
  getProductsByIds rt options w = (Ok (Some l), w') →
  StronglySorted (newest_first rt) l.
Proof.
  intros Hd. unfold getProductsByIds.
  destruct (sm_ids _) as [|i ids]; [done|]. run.
  destruct (where_in rt _) as [byName|]; [|done]. run.
  destruct (visibility_constraint _) as [fs|]; [|done]. run.
  destruct (select "products" (byName :: fs) (docs w))
    as [|d0 snapshot] eqn:Hsel; [done|].
  rewrite <- Hsel.
  destruct (Array_map _ _) as [products|] eqn:Hmap; [|done]. run.
  intros [= <- <-]. apply sortItems_newest_first.
  by eapply productEntries_dated.
Qed.

Lemma getUpsells_sorted (l : list obj) (w' : world) :
  dated rt "upsells" w →
  getUpsells rt w = (Ok (Some l), w') →
  StronglySorted (newest_first rt) l.
Proof.
  intros Hd. unfold getUpsells. run. intros [= <- <-].
  apply sortItems_newest_first. apply Forall_fmap.
  eapply Forall_impl; [apply Forall_select, Hd|].
  intros d Hdate. simpl. unfold time_of in *. by rewrite get_spread_id.
Qed.

Lemma getCollections_sorted (options : BaseOptionsType) (l : list obj)
    (w' : world) :
  indexed rt "collections" w →
  getCollections rt options w = (Ok (Some l), w') →
  StronglySorted (index_ascending rt) l.
Proof.
  intros Hi. unfold getCollections. run.
  destruct (visibility_constraint _) as [fs|]; [|done]. run.
  destruct (select "collections" fs (docs w)) as [|d0 snapshot] eqn:Hsel;
    [done|].
  rewrite <- Hsel.
  destruct (promise_all _ _) as [[collections|] w1] eqn:Hall; [|done]. run.
  intros [= <- <-]. apply sort_by_index_ascending.
  apply promise_all_Forall2 in Hall.
  apply Forall2_fmap_l in Hall.
  eapply Forall2_Forall_r; [exact Hall|].
  eapply Forall_impl; [apply Forall_select, Hi|].
  intros d Hindex e (wa & wb & [He _]%collectionEntry_keys).
  unfold index_of in *. by rewrite He.
Qed.

Lemma getCategories_sorted (l : list obj) (w' : world) :
  indexed rt "categories" w →
  getCategories rt w = (Ok (Some l), w') →
  StronglySorted (index_ascending rt) l.
Proof.
  intros Hi. unfold getCategories. run.
  destruct (select "categories" [] (docs w)) as [|d0 snapshot] eqn:Hsel;
    [done|].
  rewrite <- Hsel. run. intros [= <- <-].
  apply sort_by_index_ascending. apply Forall_fmap.
  eapply Forall_impl; [apply Forall_select, Hi|].
  intros d Hindex. simpl. unfold index_of in *. by rewrite get_spread_id.
Qed.

Lemma getUpsell_sorted (id : value) (p : path) (data : obj)
    (items : list value) :
  doc_path "upsells" id = Ok p →
  docs w !! p = Some data →
  data !! "products" = Some (VArr items) →
  Forall (λ v, is_Some (item_index rt v)) items →
  ∃ r sorted,
    (getUpsell rt id w).1 = Ok (Some r)
    ∧ r !! "products" = Some (VArr sorted)
    ∧ sorted ≡ₚ items
    ∧ StronglySorted (item_ascending rt) sorted
    ∧ ∀ n, filter (λ v, item_index rt v = Some n) sorted =
           filter (λ v, item_index rt v = Some n) items.
Proof.
  intros Hp Hdoc Hprod Hall.
  destruct (Array_sort_by_index rt items Hall)
    as (sorted & Hsort & Hperm & Hsorted & Hstable).
  eexists _, sorted. split; [|split; [|done]].
  - unfold getUpsell. run. rewrite Hp. run. rewrite Hdoc.
    unfold get. rewrite Hprod. simpl. rewrite Hsort. run. done.
  - by rewrite lookup_insert_eq.
Qed.

End ListsSorted.



(** The upsell of the catalog stores its products with the indices 2, 1, 1:
    the two of index 1 come first, in their stored order. *)
Example getUpsell_sorts_products :
  field_of (getUpsell Engine.engine (VStr "u1") catalog) "products" =
    Some (VArr [gone_snapshot; shirt_snapshot; hat_snapshot]).
Proof. vm_compute. reflexivity. Qed.

Example getProducts_newest_first :
  ids_of (getProducts Engine.engine (all []) catalog) =
    Some [VStr "p2"; VStr "p3"; VStr "p1"].
Proof. vm_compute. reflexivity. Qed.

(** ** Field projection *)

Lemma requested_lookup (fields : list string) (data : obj) (k : string) :
  requested fields data !! k = if decide (k ∈ fields) then data !! k else None.
Proof.
  unfold requested. destruct (data !! k) as [v|] eqn:Hk.
  - case_decide as Hin.
    + apply map_lookup_filter_Some. done.
    + apply map_lookup_filter_None. right. intros v' Hv'. done.
  - replace (if decide (k ∈ fields) then None else None) with (@None value)
      by (by case_decide).
    apply map_lookup_filter_None. by left.
Qed.

Lemma requested_dom (fields : list string) (data : obj) :
  dom (requested fields data) = list_to_set fields ∩ dom data.
Proof.
  apply set_eq. intros k.
  rewrite elem_of_intersection, !elem_of_dom, requested_lookup,
    elem_of_list_to_set.
  case_decide; [tauto|]. split; [by intros []|tauto].
Qed.

(** The loop of the source computes the projection, on a document that
    does not shadow [hasOwnProperty]. *)
Lemma select_fields_requested (fields : list string) (data sel : obj) :
  data !! "hasOwnProperty" = None →
  select_fields fields data sel = Ok (requested fields data ∪ sel).
Proof.
  intros Hplain. revert sel. induction fields as [|f fields IH]; intros sel.
  - simpl. f_equal. apply map_eq. intros k.
    rewrite lookup_union, requested_lookup.
    rewrite decide_False by apply not_elem_of_nil.
    by destruct (sel !! k).
  - simpl. unfold hasOwnProperty. rewrite Hplain. simpl. rewrite IH.
    f_equal. apply map_eq. intros k.
    rewrite !lookup_union, !requested_lookup.
    destruct (decide (k = f)) as [->|Hne].
    + rewrite (decide_True (P := f ∈ f :: fields)) by left.
      case_bool_decide as Hf.
      * destruct Hf as [v Hv]. unfold get. rewrite Hv. simpl.
        rewrite lookup_insert_eq. case_decide; by destruct (sel !! f).
      * apply eq_None_not_Some in Hf. rewrite Hf.
        by case_decide.
    + assert (Hk : (if bool_decide (is_Some (data !! f))
                    then <[f := get data f]> sel else sel) !! k = sel !! k).
      { case_bool_decide; [|done]. by rewrite lookup_insert_ne. }
      rewrite Hk.
      destruct (decide (k ∈ fields)) as [Hin|Hnin].
      * by rewrite decide_True by (by right).
      * rewrite decide_False; [done|].
        rewrite elem_of_cons. tauto.
Qed.

Lemma pick_projection (fields : list string) (data : obj) :
  data !! "hasOwnProperty" = None →
  pick fields data = Ok (projection fields data).
Proof.
  intros Hplain. destruct fields as [|f fields]; [done|].
  unfold pick, projection. rewrite select_fields_requested by done.
  by rewrite (right_id_L ∅ (∪)).
Qed.

Lemma getEntity_present (coll id : string) (fields : value) (w : world)
    (data : obj) :
  unshadowed w →
  doc_path coll (VStr (trim id)) = Ok [coll; trim id] →
  docs w !! [coll; trim id] = Some data →
  getEntity coll {| si_id := VStr id; si_fields := fields |} w =
    (Ok (Some (spread (projection (filter_strings fields) data)
                      {["id" := VStr (trim id)]})),
     World (docs w) (trace w ++ [Read [coll; trim id]])).
Proof.
  intros Hw Hp Hdoc. unfold getEntity. run.
  destruct (String.eqb (trim id) "") eqn:Hid.
  { apply String.eqb_eq in Hid. rewrite Hid in Hp. by vm_compute in Hp. }
  run. rewrite Hp. run. rewrite Hdoc.
  rewrite pick_projection by (by eapply Hw). run. done.
Qed.

(** ** The documents a query lists *)

Lemma elem_of_collection_docs (coll : string) (m : gmap path obj)
    (d : QueryDocumentSnapshot) :
  d ∈ collection_docs coll m ↔ m !! [coll; q_id d] = Some (q_data d).
Proof.
  unfold collection_docs. rewrite list_elem_of_omap. split.
  - intros ([p o] & Hin & Hd). apply elem_of_map_to_list in Hin.
    unfold in_collection in Hd. simpl in Hd.
    destruct p as [|c [|i [|]]]; try discriminate Hd.
    destruct (decide (c = coll)) as [->|]; [|discriminate Hd].
    injection Hd as <-. exact Hin.
  - intros Hd. exists ([coll; q_id d], q_data d). split.
    + by apply elem_of_map_to_list.
    + unfold in_collection. simpl. rewrite decide_True by done.
      by destruct d.
Qed.

Lemma select_unshadowed (w : world) (coll : string)
    (fs : list QueryConstraint) :
  unshadowed w →
  Forall (λ d, q_data d !! "hasOwnProperty" = None)
         (select coll fs (docs w)).
Proof.
  intros Hw. apply Forall_forall. intros d Hd.
  apply select_subseteq, elem_of_collection_docs in Hd. by eapply Hw.
Qed.

Lemma Array_map_productEntry (fields : list string)
    (snapshot : list QueryDocumentSnapshot) :
  Forall (λ d, q_data d !! "hasOwnProperty" = None) snapshot →
  Array_map (productEntry fields) snapshot
    = Ok (product_entry fields <$> snapshot).
Proof.
  induction 1 as [|d snapshot Hd _ IH]; [done|].
  simpl. rewrite IH. unfold productEntry at 1.
  by rewrite pick_projection.
Qed.

(** [getProducts], on a store whose documents do not shadow the method:
    one query, [null] for no match, else the entries sorted. *)
Lemma getProducts_result (rt : runtime) (options : BaseOptionsType)
    (fs : list QueryConstraint) (w : world) :
  unshadowed w →
  visibility_constraint (b_visibility options) = Ok fs →
  getProducts rt options w =
    (Ok (match select "products" fs (docs w) with
         | [] => None
         | snapshot =>
             Some (sortItems rt
                     (product_entry (filter_strings (b_fields options))
                        <$> snapshot) "updatedAt" true)
         end),
     World (docs w) (trace w ++ [Query "products" fs])).
Proof.
  intros Hw Hfs. unfold getProducts. run. rewrite Hfs. run.
  pose proof (select_unshadowed w "products" fs Hw) as Hsel.
  destruct (select "products" fs (docs w)) as [|d snapshot]; [done|].
  rewrite Array_map_productEntry by done. run. done.
Qed.

Lemma getProductsByIds_result (rt : runtime)
    (options : GetProductsByIdsOptionsType)
    (byName : QueryConstraint) (fs : list QueryConstraint) (w : world) :
  let sanitized := sanitizeMultiItemOptions options in
  unshadowed w →
  sm_ids sanitized ≠ [] →
  where_in rt (sm_ids sanitized) = Ok byName →
  visibility_constraint (sm_visibility sanitized) = Ok fs →
  getProductsByIds rt options w =
    (Ok (match select "products" (byName :: fs) (docs w) with
         | [] => None
         | snapshot =>
             Some (sortItems rt
                     (product_entry (sm_fields sanitized) <$> snapshot)
                     "updatedAt" true)
         end),
     World (docs w) (trace w ++ [Query "products" (byName :: fs)])).
Proof.
  intros sanitized Hw Hne Hin Hfs. unfold getProductsByIds. fold sanitized.
  destruct (sm_ids sanitized) as [|i ids] eqn:Hids; [done|].
  run. rewrite Hin. run. rewrite Hfs. run.
  pose proof (select_unshadowed w "products" (byName :: fs) Hw) as Hsel.
  destruct (select "products" (byName :: fs) (docs w)) as [|d snapshot];
    [done|].
  rewrite Array_map_productEntry by done. run. done.
Qed.

(** ** The expansion of a collection *)

Lemma Forall_exists_Forall2 {A B} (R : A → B → Prop) (l : list A) :
  Forall (λ x, ∃ y, R x y) l → ∃ r, Forall2 R l r.
Proof.
  induction 1 as [|x l [y Hy] _ [r IH]]; [by exists []|].
  exists (y :: r). by constructor.
Qed.

(** [Promise.all] over callbacks that succeed and leave the documents as
    they are. *)
Lemma promise_all_ok {A : Type} (m0 : gmap path obj) (ms : list (M A))
    (r : list A) (w : world) :
  Forall2 (λ m y, ∀ wa, docs wa = m0 →
                    ∃ wb, m wa = (Ok y, wb) ∧ docs wb = m0) ms r →
  docs w = m0 →
  ∃ w', promise_all ms w = (Ok r, w') ∧ docs w' = m0.
Proof.
  intros Hall. revert w. induction Hall as [|m y ms r Hm _ IH]; intros w Hw.
  - exists w. done.
  - destruct (Hm w Hw) as (w1 & Hrun & Hw1).
    destruct (IH w1 Hw1) as (w2 & Hrest & Hw2).
    exists w2. simpl. by rewrite Hrun, Hrest.
Qed.

Lemma expandCollectionProduct_result (ref : value) (s : string) (o : obj)
    (wa : world) :
  reference_to s o ref →
  expandCollectionProduct ref wa =
    (Ok (VObj (<["index" := get o "index"]>
                 (<["id" := VStr s]>
                    (default ∅ (docs wa !! ["products"; s]))))),
     World (docs wa) (trace wa ++ [Read ["products"; s]])).
Proof.
  intros (-> & Hid & Hp). unfold expandCollectionProduct. run.
  cbn [member]. rewrite (get_lookup o "id" _ Hid). run. rewrite Hp. run.
  unfold spread. by rewrite (right_id_L ∅ (∪)).
Qed.

Lemma expansions_exist (m : gmap path obj) (refs : list value) :
  Forall is_reference refs → ∃ items, Forall2 (expansion_of m) refs items.
Proof.
  intros Hrefs. apply Forall_exists_Forall2.
  eapply Forall_impl; [exact Hrefs|]. intros ref (s & o & Href).
  destruct (m !! ["products"; s]) as [product|] eqn:Hm.
  - eexists. exists s, o. split; [done|]. by rewrite Hm.
  - eexists. exists s, o. split; [done|]. by rewrite Hm.
Qed.

Lemma expand_all (m : gmap path obj) (refs items : list value) (wa : world) :
  Forall2 (expansion_of m) refs items →
  docs wa = m →
  ∃ wb, promise_all (expandCollectionProduct <$> refs) wa = (Ok items, wb)
        ∧ docs wb = m.
Proof.
  intros Hit. apply promise_all_ok.
  apply Forall2_fmap_l. eapply Forall2_impl; [exact Hit|]. clear.
  intros ref item (s & o & Href & Hitem) wa Hwa. cbn beta.
  rewrite (expandCollectionProduct_result ref s o wa Href), Hwa.
  assert (item = VObj (<["index" := get o "index"]>
                         (<["id" := VStr s]>
                            (default ∅ (m !! ["products"; s]))))) as ->.
  { destruct (m !! ["products"; s]); [exact Hitem|].
    cbn [default]. rewrite insert_empty. exact Hitem. }
  eexists. split; [reflexivity|done].
Qed.

Lemma as_array_references (data : obj) (refs : list value) :
  references data = Some refs →
  as_array (if truthy (get data "products") then get data "products"
            else VArr []) = Ok refs.
Proof.
  unfold references. destruct (get data "products") as [| |b|n|s|l|o];
    simpl; try (intros [= <-]; done).
  - destruct b; [done|]. by intros [= <-].
  - destruct (n =? 0)%Z; simpl; [|done]. by intros [= <-].
  - destruct (String.eqb s ""); simpl; [|done]. by intros [= <-].
Qed.

Lemma collectionEntry_expanded (fields : list string)
    (d : QueryDocumentSnapshot) (refs items : list value) (wa : world) :
  "products" ∈ fields →
  q_data d !! "hasOwnProperty" = None →
  references (q_data d) = Some refs →
  Forall2 (expansion_of (docs wa)) refs items →
  ∃ wb, collectionEntry fields d wa =
          (Ok (collection_frame d
                 (<["products" := VArr items]> (requested fields (q_data d)))),
           wb)
        ∧ docs wb = docs wa.
Proof.
  intros Hin Hplain Hrefs Hitems. unfold collectionEntry. run.
  rewrite select_fields_requested by done. run.
  rewrite (right_id_L ∅ (∪)).
  rewrite bool_decide_eq_true_2 by done. run.
  rewrite (as_array_references _ _ Hrefs). run.
  destruct (expand_all (docs wa) refs items wa Hitems eq_refl)
    as (wb & -> & Hwb).
  exists wb. done.
Qed.

Lemma collectionEntry_plain (fields : list string)
    (d : QueryDocumentSnapshot) (wa : world) :
  "products" ∉ fields →
  q_data d !! "hasOwnProperty" = None →
  collectionEntry fields d wa =
    (Ok (collection_frame d (requested fields (q_data d))), wa).
Proof.
  intros Hin Hplain. unfold collectionEntry. run.
  rewrite select_fields_requested by done. run.
  rewrite (right_id_L ∅ (∪)).
  rewrite bool_decide_eq_false_2 by done. run. done.
Qed.

Lemma collection_frame_products (d : QueryDocumentSnapshot) (sel : obj) :
  collection_frame d sel !! "products" = sel !! "products".
Proof.
  unfold collection_frame, spread.
  repeat (rewrite lookup_insert_ne by done).
  rewrite lookup_union, lookup_singleton_ne by done.
  by destruct (sel !! "products").
Qed.

(** [getCollections] with [products] among the fields, on collections that
    hold lists of references: every document of the query gives an entry
    whose [products] is the list of the expansions of its references. *)
Lemma getCollections_expanded (rt : runtime) (options : BaseOptionsType)
    (fs : list QueryConstraint) (w : world) :
  let fields := filter_strings (b_fields options) in
  let snapshot := select "collections" fs (docs w) in
  "products" ∈ fields →
  unshadowed w →
  visibility_constraint (b_visibility options) = Ok fs →
  snapshot ≠ [] →
  well_referenced snapshot →
  ∃ entries w',
    getCollections rt options w =
      (Ok (Some (sortItems rt entries "index" false)), w')
    ∧ docs w' = docs w
    ∧ Forall2 (λ d e, ∃ refs items,
        references (q_data d) = Some refs
        ∧ Forall2 (expansion_of (docs w)) refs items
        ∧ e = collection_frame d
                (<["products" := VArr items]> (requested fields (q_data d))))
        snapshot entries.
Proof.
  intros fields snapshot Hin Hw Hfs Hne Hrefs.
  pose proof (select_unshadowed w "collections" fs Hw) as Hplain.
  fold snapshot in Hplain.
  set (R := λ (d : QueryDocumentSnapshot) (e : obj),
    q_data d !! "hasOwnProperty" = None ∧
    ∃ refs items,
      references (q_data d) = Some refs
      ∧ Forall2 (expansion_of (docs w)) refs items
      ∧ e = collection_frame d
              (<["products" := VArr items]> (requested fields (q_data d)))).
  destruct (Forall_exists_Forall2 R snapshot) as [entries Hentries].
  { unfold well_referenced in Hrefs.
    rewrite Forall_forall in Hrefs, Hplain. apply Forall_forall.
    intros d Hd. destruct (Hrefs d Hd) as (refs & Href & Hall).
    destruct (expansions_exist (docs w) refs Hall) as [items Hitems].
    eexists. split; [by apply Hplain|]. exists refs, items. done. }
  destruct (promise_all_ok (docs w) (collectionEntry fields <$> snapshot)
              entries
              (World (docs w) (trace w ++ [Query "collections" fs])))
    as (w' & Hrun & Hw'); [|done|].
  { apply Forall2_fmap_l. eapply Forall2_impl; [exact Hentries|].
    intros d e (Hd & refs & items & Href & Hitems & ->) wa Hwa. cbn beta.
    rewrite <- Hwa in Hitems.
    destruct (collectionEntry_expanded fields d refs items wa Hin Hd Href
                Hitems) as (wb & -> & Hwb).
    exists wb. split; [done|]. by rewrite Hwb. }
  exists entries, w'. split; [|split; [done|]].
  - unfold getCollections. run. rewrite Hfs. run.
    fold fields. fold snapshot.
    destruct snapshot as [|d0 snapshot']; [done|].
    rewrite Hrun. run. done.
  - eapply Forall2_impl; [exact Hentries|]. intros d e [_ H]. exact H.
Qed.

(** C10: in the expansion of [getCollections] (with [products] among the
    fields), every reference of a collection gives one entry of the
    expanded list, in the order of the references: for a product that is
    not stored the entry holds the reference's id and index and nothing
    else, for a stored product it is the stored document with the
    reference's id and index over it. *)
Theorem collection_expansion_keeps_missing_products (rt : runtime)
    (options : BaseOptionsType) (fs : list QueryConstraint) (w : world) :
  "products" ∈ filter_strings (b_fields options) →
  unshadowed w →
  visibility_constraint (b_visibility options) = Ok fs →
  select "collections" fs (docs w) ≠ [] →
  well_referenced (select "collections" fs (docs w)) →
  ∃ entries w',
    getCollections rt options w =
      (Ok (Some (sortItems rt entries "index" false)), w')
    ∧ sortItems rt entries "index" false ≡ₚ entries
    ∧ Forall2 (λ d e, ∃ refs items,
        references (q_data d) = Some refs
        ∧ e !! "products" = Some (VArr items)
        ∧ Forall2 (expansion_of (docs w)) refs items)
        (select "collections" fs (docs w)) entries.
Proof.
  intros Hin Hw Hfs Hne Hrefs.
  destruct (getCollections_expanded rt options fs w Hin Hw Hfs Hne Hrefs)
    as (entries & w' & Hrun & _ & Hentries).
  exists entries, w'. split; [done|]. split; [apply sortItems_Permutation|].
  eapply Forall2_impl; [exact Hentries|].
  intros d e (refs & items & Href & Hitems & ->).
  exists refs, items. split; [done|]. split; [|done].
  by rewrite collection_frame_products, lookup_insert_eq.
Qed.

Lemma collection_expansion_witness :
  ∃ entries w',
    getCollections Engine.engine (all ["title"; "products"]) catalog =
      (Ok (Some (sortItems Engine.engine entries "index" false)), w')
    ∧ sortItems Engine.engine entries "index" false ≡ₚ entries
    ∧ Forall2 (λ d e, ∃ refs items,
        references (q_data d) = Some refs
        ∧ e !! "products" = Some (VArr items)
        ∧ Forall2 (expansion_of (docs catalog)) refs items)
        (select "collections" [] (docs catalog)) entries.
Proof.
  apply (collection_expansion_keeps_missing_products Engine.engine
           (all ["title"; "products"]) [] catalog).
  - compute_done.
  - compute_done.
  - reflexivity.
  - intros H. vm_compute in H. discriminate H.
  - assert (select "collections" [] (docs catalog) =
            [ {| q_id := "c2"; q_data := winter |};
              {| q_id := "c1"; q_data := summer |} ]) as ->
      by (vm_compute; reflexivity).
    repeat constructor.
    + eexists. split; [vm_compute; reflexivity|]. constructor.
    + eexists. split; [vm_compute; reflexivity|].
      repeat constructor; eexists _, _; (split; [reflexivity|]);
        split; vm_compute; reflexivity.
Defined.

(** ** The projection rule of the reads *)

Lemma projection_lookup (fields : list string) (data : obj) (k : string) :
  projection fields data !! k =
    if decide (fields = [] ∨ k ∈ fields) then data !! k else None.
Proof.
  destruct fields as [|f fields]; cbn [projection].
  - by rewrite decide_True by (by left).
  - rewrite requested_lookup.
    destruct (decide (k ∈ f :: fields)) as [Hin|Hnin].
    + by rewrite decide_True by (by right).
    + rewrite decide_False; [done|]. by intros [?|?].
Qed.

Lemma spread_id_lookup (sel : obj) (i : value) (k : string) :
  spread sel {["id" := i]} !! k =
    if decide (k = "id") then Some (default i (sel !! "id")) else sel !! k.
Proof.
  unfold spread. rewrite lookup_union. case_decide as Hk.
  - subst k. rewrite lookup_singleton_eq. by destruct (sel !! "id").
  - rewrite lookup_singleton_ne by done. by destruct (sel !! k).
Qed.

Lemma product_entry_lookup (fields : list string) (d : QueryDocumentSnapshot)
    (k : string) :
  product_entry fields d !! k =
    if decide (k ∈ ["updatedAt"; "visibility"])
    then Some (get (q_data d) k)
    else if decide (k = "id")
         then Some (default (VStr (q_id d))
                            (projection fields (q_data d) !! "id"))
         else projection fields (q_data d) !! k.
Proof.
  unfold product_entry.
  destruct (decide (k = "visibility")) as [->|Hv].
  { rewrite lookup_insert_eq. by rewrite decide_True by compute_done. }
  rewrite lookup_insert_ne by done.
  destruct (decide (k = "updatedAt")) as [->|Hu].
  { rewrite lookup_insert_eq. by rewrite decide_True by compute_done. }
  rewrite lookup_insert_ne by done.
  rewrite decide_False; [apply spread_id_lookup|].
  rewrite !elem_of_cons, elem_of_nil. tauto.
Qed.

Lemma getProducts_entries (rt : runtime) (w : world)
    (options : BaseOptionsType) (l : list obj) (w' : world) :
  unshadowed w →
  getProducts rt options w = (Ok (Some l), w') →
  ∃ fs, visibility_constraint (b_visibility options) = Ok fs
        ∧ l ≡ₚ product_entry (filter_strings (b_fields options))
                 <$> select "products" fs (docs w).
Proof.
  intros Hw Hrun.
  destruct (visibility_constraint (b_visibility options)) as [fs|] eqn:Hfs.
  - rewrite (getProducts_result rt options fs w Hw Hfs) in Hrun.
    exists fs. split; [done|].
    destruct (select "products" fs (docs w)) as [|d snapshot]; [done|].
    injection Hrun as <- _.
    exact (sortItems_Permutation rt (_ <$> d :: snapshot) "updatedAt" true).
  - exfalso. revert Hrun. unfold getProducts. run. by rewrite Hfs.
Qed.

Lemma getProductsByIds_entries (rt : runtime) (w : world)
    (options : GetProductsByIdsOptionsType) (l : list obj) (w' : world) :
  unshadowed w →
  getProductsByIds rt options w = (Ok (Some l), w') →
  ∃ fs, l ≡ₚ product_entry (sm_fields (sanitizeMultiItemOptions options))
               <$> select "products" fs (docs w).
Proof.
  intros Hw Hrun. set (sanitized := sanitizeMultiItemOptions options) in *.
  destruct (sm_ids sanitized) as [|i ids] eqn:Hids.
  { exfalso. revert Hrun. unfold getProductsByIds. fold sanitized.
    by rewrite Hids. }
  destruct (where_in rt (sm_ids sanitized)) as [byName|] eqn:Hin.
  2:{ exfalso. revert Hrun. unfold getProductsByIds. fold sanitized.
      rewrite Hids in *. run. by rewrite Hin. }
  destruct (visibility_constraint (sm_visibility sanitized)) as [fs|] eqn:Hfs.
  2:{ exfalso. revert Hrun. unfold getProductsByIds. fold sanitized.
      rewrite Hids in *. run. rewrite Hin. run. by rewrite Hfs. }
  rewrite (getProductsByIds_result rt options byName fs w Hw) in Hrun;
    [|by fold sanitized; rewrite Hids|done|done].
  exists (byName :: fs). fold sanitized in Hrun.
  destruct (select "products" (byName :: fs) (docs w)) as [|d snapshot];
    [done|].
  injection Hrun as <- _.
  exact (sortItems_Permutation rt (_ <$> d :: snapshot) "updatedAt" true).
Qed.

Lemma collection_frame_lookup (d : QueryDocumentSnapshot) (sel : obj)
    (k : string) :
  collection_frame d sel !! k =
    if decide (k ∈ ["updatedAt"; "index"; "visibility"; "collectionType"])
    then Some (get (q_data d) k)
    else if decide (k = "id")
         then Some (default (VStr (q_id d)) (sel !! "id"))
         else sel !! k.
Proof.
  unfold collection_frame.
  destruct (decide (k = "collectionType")) as [->|H1].
  { rewrite lookup_insert_eq. by rewrite decide_True by compute_done. }
  rewrite lookup_insert_ne by done.
  destruct (decide (k = "visibility")) as [->|H2].
  { rewrite lookup_insert_eq. by rewrite decide_True by compute_done. }
  rewrite lookup_insert_ne by done.
  destruct (decide (k = "index")) as [->|H3].
  { rewrite lookup_insert_eq. by rewrite decide_True by compute_done. }
  rewrite lookup_insert_ne by done.
  destruct (decide (k = "updatedAt")) as [->|H4].
  { rewrite lookup_insert_eq. by rewrite decide_True by compute_done. }
  rewrite lookup_insert_ne by done.
  rewrite decide_False; [apply spread_id_lookup|].
  rewrite !elem_of_cons, elem_of_nil. tauto.
Qed.

Lemma collection_frame_rule (fields : list string)
    (d : QueryDocumentSnapshot) (sel : obj) :
  (∀ k, k ≠ "products" → sel !! k = requested fields (q_data d) !! k) →
  (if decide ("products" ∈ fields)
   then ∃ items, sel !! "products" = Some (VArr items)
   else sel !! "products" = None) →
  collection_rule fields d (collection_frame d sel).
Proof.
  intros Hsel Hproducts. split; [|split; [|split]].
  - intros k Hk. rewrite collection_frame_lookup.
    rewrite !elem_of_cons, elem_of_nil in Hk.
    rewrite decide_False by (rewrite !elem_of_cons, elem_of_nil; tauto).
    rewrite decide_False by tauto. apply Hsel. tauto.
  - rewrite collection_frame_lookup.
    rewrite decide_False by compute_done.
    rewrite decide_True by done. by rewrite Hsel.
  - intros k Hk. rewrite collection_frame_lookup. by rewrite decide_True.
  - by rewrite collection_frame_products.
Qed.

Lemma collectionEntry_rule (fields : list string) (d : QueryDocumentSnapshot)
    (wa wb : world) (e : obj) :
  q_data d !! "hasOwnProperty" = None →
  collectionEntry fields d wa = (Ok e, wb) →
  collection_rule fields d e.
Proof.
  intros Hplain.
  destruct (decide ("products" ∈ fields)) as [Hin|Hnin].
  - unfold collectionEntry. run.
    rewrite select_fields_requested by done. run.
    rewrite (right_id_L ∅ (∪)).
    rewrite bool_decide_eq_true_2 by done. run.
    destruct (as_array _) as [refs|]; [|intros [=]]. run.
    destruct (promise_all _ wa) as [[items|] w1]; [|intros [=]].
    intros [= <- <-]. apply collection_frame_rule.
    + intros k Hk. by rewrite lookup_insert_ne.
    + rewrite decide_True by done. eexists. apply lookup_insert_eq.
  - rewrite collectionEntry_plain by done. intros [= <- <-].
    apply collection_frame_rule; [done|].
    rewrite decide_False by done. rewrite requested_lookup.
    by rewrite decide_False.
Qed.

Lemma getCollections_entries (rt : runtime) (w : world)
    (options : BaseOptionsType) (l : list obj) (w' : world) :
  unshadowed w →
  getCollections rt options w = (Ok (Some l), w') →
  ∃ fs entries,
    visibility_constraint (b_visibility options) = Ok fs
    ∧ l ≡ₚ entries
    ∧ Forall2 (collection_rule (filter_strings (b_fields options)))
              (select "collections" fs (docs w)) entries.
Proof.
  intros Hw. unfold getCollections. run.
  destruct (visibility_constraint _) as [fs|]; [|intros [=]]. run.
  pose proof (select_unshadowed w "collections" fs Hw) as Hplain.
  destruct (select "collections" fs (docs w)) as [|d0 snapshot] eqn:Hsel;
    [intros [=]|].
  rewrite <- Hsel in *.
  destruct (promise_all _ _) as [[collections|] w1] eqn:Hall; [|intros [=]].
  run. intros [= <- <-]. exists fs, collections.
  split; [done|]. split; [apply sortItems_Permutation|].
  apply promise_all_Forall2 in Hall. apply Forall2_fmap_l in Hall.
  clear Hsel.
  induction Hall as [|d e ds es (wa & wb & He) _ IH]; [constructor|].
  apply Forall_cons in Hplain as [Hd Hplain].
  constructor; [by eapply collectionEntry_rule|by apply IH].
Qed.

(** C1, as the code has it.  On a store whose documents have no field
    named [hasOwnProperty]: [getProduct] and [getCollection] on a present
    document return the projection (the requested fields that exist, or
    the whole document for an empty field list) with the id, a selected
    stored field [id] taking the place of the document id; every entry of
    [getProducts] and [getProductsByIds] is that and always carries
    [updatedAt] and [visibility] on top; every entry of [getCollections]
    under a non-empty field list holds the id, the requested fields that
    exist, always [updatedAt], [index], [visibility] and [collectionType],
    and a [products] list exactly when it was requested. *)
Theorem projection_rule (rt : runtime) (w : world) :
  unshadowed w →
  (∀ fields data k,
     projection fields data !! k =
       if decide (fields = [] ∨ k ∈ fields) then data !! k else None)
  ∧ (∀ id fields data,
       doc_path "products" (VStr (trim id)) = Ok ["products"; trim id] →
       docs w !! ["products"; trim id] = Some data →
       ∃ r, (getProduct {| si_id := VStr id; si_fields := fields |} w).1
              = Ok (Some r)
            ∧ r !! "id" =
                Some (default (VStr (trim id))
                        (projection (filter_strings fields) data !! "id"))
            ∧ ∀ k, k ≠ "id" →
                   r !! k = projection (filter_strings fields) data !! k)
  ∧ (∀ id fields data,
       doc_path "collections" (VStr (trim id)) = Ok ["collections"; trim id] →
       docs w !! ["collections"; trim id] = Some data →
       ∃ r, (getCollection {| si_id := VStr id; si_fields := fields |} w).1
              = Ok (Some r)
            ∧ r !! "id" =
                Some (default (VStr (trim id))
                        (projection (filter_strings fields) data !! "id"))
            ∧ ∀ k, k ≠ "id" →
                   r !! k = projection (filter_strings fields) data !! k)
  ∧ (∀ fields d k,
       product_entry fields d !! k =
         if decide (k ∈ ["updatedAt"; "visibility"])
         then Some (get (q_data d) k)
         else if decide (k = "id")
              then Some (default (VStr (q_id d))
                                 (projection fields (q_data d) !! "id"))
              else projection fields (q_data d) !! k)
  ∧ (∀ options l w',
       getProducts rt options w = (Ok (Some l), w') →
       ∃ fs, l ≡ₚ product_entry (filter_strings (b_fields options))
                    <$> select "products" fs (docs w))
  ∧ (∀ options l w',
       getProductsByIds rt options w = (Ok (Some l), w') →
       ∃ fs, l ≡ₚ product_entry (filter_strings (mi_fields options))
                    <$> select "products" fs (docs w))
  ∧ (∀ options l w',
       filter_strings (b_fields options) ≠ [] →
       getCollections rt options w = (Ok (Some l), w') →
       ∃ fs entries,
         l ≡ₚ entries
         ∧ Forall2 (collection_rule (filter_strings (b_fields options)))
                   (select "collections" fs (docs w)) entries).
Proof.
  intros Hw.
  assert (Hentity : ∀ coll id fields data,
    doc_path coll (VStr (trim id)) = Ok [coll; trim id] →
    docs w !! [coll; trim id] = Some data →
    ∃ r, (getEntity coll {| si_id := VStr id; si_fields := fields |} w).1
           = Ok (Some r)
         ∧ r !! "id" =
             Some (default (VStr (trim id))
                     (projection (filter_strings fields) data !! "id"))
         ∧ ∀ k, k ≠ "id" →
                r !! k = projection (filter_strings fields) data !! k).
  { intros coll id fields data Hp Hdoc.
    rewrite (getEntity_present coll id fields w data Hw Hp Hdoc).
    eexists. split; [reflexivity|]. split.
    - rewrite spread_id_lookup. by rewrite decide_True.
    - intros k Hk. rewrite spread_id_lookup. by rewrite decide_False. }
  split; [apply projection_lookup|].
  split; [apply Hentity|]. split; [apply Hentity|].
  split; [apply product_entry_lookup|].
  split; [|split].
  - intros options l w' Hrun.
    destruct (getProducts_entries rt w options l w' Hw Hrun) as (fs & _ & H).
    by exists fs.
  - intros options l w' Hrun.
    by apply (getProductsByIds_entries rt w options l w' Hw).
  - intros options l w' _ Hrun.
    destruct (getCollections_entries rt w options l w' Hw Hrun)
      as (fs & entries & _ & Hperm & Hall).
    by exists fs, entries.
Qed.

Lemma projection_rule_witness :
  unshadowed one_product
  ∧ ∃ r, (getProduct (byId "X" ["name"; "colour"]) one_product).1
           = Ok (Some r)
         ∧ r !! "id" = Some (VStr "X")
         ∧ r !! "name" = Some (VStr "A")
         ∧ r !! "pricing" = None
         ∧ r !! "colour" = None.
Proof.
  assert (Hw : unshadowed one_product) by compute_done.
  split; [exact Hw|].
  destruct (projection_rule Engine.engine one_product Hw)
    as (_ & Hproduct & _).
  destruct (Hproduct "X" (VArr [VStr "name"; VStr "colour"])
              (object [("name", VStr "A");
                       ("pricing", VObj (object [("basePrice", VNum 10)]))]))
    as (r & Hrun & Hid & Hr); [reflexivity|vm_compute; reflexivity|].
  exists r. split; [exact Hrun|].
  split; [rewrite Hid; vm_compute; reflexivity|].
  repeat split; (rewrite Hr by discriminate); vm_compute; reflexivity.
Defined.

(** The example of the specification for [getProduct]. *)
Example getProduct_name_only :
  (getProduct (byId "X" ["name"]) one_product).1 =
    Ok (Some (object [("id", VStr "X"); ("name", VStr "A")])).
Proof. vm_compute. reflexivity. Qed.

(** C1 as stated fails: a product that [getProducts] lists under the
    fields [name] has [updatedAt] and [visibility] besides its id and its
    name (both undefined here, the stored document has neither). *)
Lemma getProducts_carries_unrequested_fields :
  (getProducts Engine.engine (all ["name"]) one_product).1 =
    Ok (Some [object [("id", VStr "X"); ("name", VStr "A");
                      ("updatedAt", VUndef); ("visibility", VUndef)]])
  ∧ object [("id", VStr "X"); ("name", VStr "A");
            ("updatedAt", VUndef); ("visibility", VUndef)]
    ≠ object [("id", VStr "X"); ("name", VStr "A")].
Proof.
  split; [vm_compute; reflexivity|].
  intros H. apply (f_equal (λ o : obj, o !! "updatedAt")) in H.
  vm_compute in H. discriminate H.
Qed.

(** [getCollections] has no branch for the empty field list: the stored
    fields that are not carried are left out of the entry. *)
Example getCollections_without_fields :
  (getCollections Engine.engine (all []) one_collection).1 =
    Ok (Some [object [("id", VStr "C"); ("updatedAt", VUndef);
                      ("index", VNum 1); ("visibility", VUndef);
                      ("collectionType", VUndef)]]).
Proof. vm_compute. reflexivity. Qed.

(** ** The upsell of a product *)

Lemma omap_id_fmap {A B} (f : A → option B) (l : list A) :
  omap id (f <$> l) = omap f l.
Proof.
  induction l as [|x l IH]; [done|]. csimpl. rewrite IH.
  by destruct (f x).
Qed.

(** The single fetches only read. *)
Lemma getEntity_docs (coll : string) (options : SingleItemOptionsType)
    (w : world) :
  docs (getEntity coll options w).2 = docs w.
Proof.
  unfold getEntity. run.
  destruct (sanitizeSingleItemOptions options) as [sanitized|]; [|done].
  destruct (String.eqb (ss_id sanitized) ""); [done|]. run.
  destruct (doc_path coll (VStr (ss_id sanitized))) as [p|]; [|done]. run.
  destruct (docs w !! p) as [data|]; [|done].
  by destruct (pick _ data).
Qed.

Lemma member_nested (o : obj) (a b : string) :
  nullish (get o a) = false →
  member (get o a) b = Ok (nested o a b).
Proof. unfold nested. by destruct (get o a). Qed.

Lemma referred_reference (m : gmap path obj) (s : string) (o : obj)
    (item : value) :
  reference_to s o item → referred m item = m !! ["products"; s].
Proof.
  intros (-> & Hid & _). unfold referred. by rewrite (get_lookup _ _ _ Hid).
Qed.

Lemma resolveUpsellProduct_result (m : gmap path obj) (item : value)
    (wa : world) :
  resolvable m item →
  docs wa = m →
  ∃ wb, resolveUpsellProduct item wa = (Ok (resolve m item), wb)
        ∧ docs wb = m.
Proof.
  intros (s & o & Href & Hwf) Hwa.
  unfold resolve. rewrite (referred_reference m s o item Href).
  destruct Href as (-> & Hid & Hp).
  unfold resolveUpsellProduct. run.
  cbn [member]. rewrite (get_lookup o "id" _ Hid). run. rewrite Hp. run.
  rewrite Hwa.
  destruct (m !! ["products"; s]) as [product|] eqn:Hm.
  - destruct (Hwf product eq_refl) as [Himages Hpricing]. run.
    rewrite (member_nested product "images" "main" Himages). run.
    rewrite (member_nested product "pricing" "basePrice" Hpricing). run.
    eexists. split; reflexivity.
  - eexists. split; reflexivity.
Qed.

Lemma resolve_all (m : gmap path obj) (items : list value) (wa : world) :
  Forall (resolvable m) items →
  docs wa = m →
  ∃ wb, promise_all (resolveUpsellProduct <$> items) wa
          = (Ok (resolve m <$> items), wb)
        ∧ docs wb = m.
Proof.
  intros Hall. apply promise_all_ok.
  apply Forall2_fmap. apply Forall_Forall2_diag.
  eapply Forall_impl; [exact Hall|].
  intros item Hitem wb Hwb. by apply resolveUpsellProduct_result.
Qed.

(** [getProductWithUpsell] when the product has an upsell that is stored
    with a list of items that can be resolved. *)
Lemma getProductWithUpsell_resolved (options : SingleItemOptionsType)
    (w w1 : world) (product upsellData : obj) (u : path)
    (items : list value) :
  getProduct options w = (Ok (Some product), w1) →
  truthy (get product "upsell") = true →
  doc_path "upsells" (get product "upsell") = Ok u →
  docs w !! u = Some upsellData →
  upsellData !! "products" = Some (VArr items) →
  Forall (resolvable (docs w)) items →
  ∃ w2,
    getProductWithUpsell options w =
      (Ok (Some (<["upsell" :=
                    VObj (<["products" :=
                             VArr (VObj <$> omap (resolve (docs w)) items)]>
                            upsellData)]> product)),
       w2)
    ∧ docs w2 = docs w.
Proof.
  intros Hget Htruthy Hu Hdoc Hitems Hall.
  assert (Hw1 : docs w1 = docs w).
  { pose proof (getEntity_docs "products" options w) as H.
    unfold getProduct in Hget. by rewrite Hget in H. }
  destruct (resolve_all (docs w) items
              (World (docs w) (trace w1 ++ [Read u])) Hall eq_refl)
    as (w2 & Hrun & Hw2).
  exists w2. split; [|exact Hw2].
  unfold getProductWithUpsell. run. rewrite Hget. run.
  rewrite Htruthy. cbn [negb]. run. rewrite Hu. run.
  rewrite Hw1, Hdoc. run.
  rewrite (get_lookup _ _ _ Hitems). cbn [as_array]. run.
  rewrite Hrun. run. by rewrite omap_id_fmap.
Qed.

Lemma resolved_snapshot_origin (m : gmap path obj) (o product : obj) :
  referred m (VObj o) = Some product →
  resolution_of m (VObj o) (VObj (resolved_snapshot o product)).
Proof.
  intros Href. exists o, product, (resolved_snapshot o product).
  unfold resolved_snapshot.
  repeat split; try done;
    repeat (rewrite lookup_insert_ne by done);
    try apply lookup_insert_eq; apply lookup_singleton_eq.
Qed.

(** The resolved list has one entry for every item whose product is
    stored, in the order of the items, and none for the others. *)
Lemma resolved_entries (m : gmap path obj) (items : list value) :
  Forall (resolvable m) items →
  Forall2 (resolution_of m)
    (filter (λ item, is_Some (referred m item)) items)
    (VObj <$> omap (resolve m) items).
Proof.
  induction 1 as [|item items (s & o & Href & _) _ IH]; [constructor|].
  rewrite filter_cons. destruct Href as (-> & Hid & Hp).
  cbn [omap list_omap resolve].
  destruct (referred m (VObj o)) as [product|] eqn:Hm.
  - rewrite decide_True by eauto. cbn [fmap option_fmap option_map].
    csimpl. constructor; [|exact IH].
    by apply resolved_snapshot_origin.
  - rewrite decide_False by (by intros []). exact IH.
Qed.

(** C9: [getProductWithUpsell] returns what [getProduct] returns, and
    reads nothing more, when that is [null] or a product without an upsell
    reference; it returns the plain product when the referenced upsell is
    not stored; and when the upsell is stored, the resolved list has one
    entry for each item whose product is stored, in the order of the
    items: the items of products that are not stored are left out, and
    nothing is thrown. *)
Theorem getProductWithUpsell_absence (options : SingleItemOptionsType)
    (w w1 : world) (found : option obj) :
  getProduct options w = (Ok found, w1) →
  ((found = None
    ∨ ∃ product, found = Some product
                 ∧ truthy (get product "upsell") = false) →
   getProductWithUpsell options w = (Ok found, w1))
  ∧ (∀ product u,
       found = Some product →
       truthy (get product "upsell") = true →
       doc_path "upsells" (get product "upsell") = Ok u →
       docs w !! u = None →
       getProductWithUpsell options w =
         (Ok (Some product), World (docs w1) (trace w1 ++ [Read u])))
  ∧ (∀ product u upsellData items,
       found = Some product →
       truthy (get product "upsell") = true →
       doc_path "upsells" (get product "upsell") = Ok u →
       docs w !! u = Some upsellData →
       upsellData !! "products" = Some (VArr items) →
       Forall (resolvable (docs w)) items →
       ∃ resolved w2,
         getProductWithUpsell options w =
           (Ok (Some (<["upsell" :=
                         VObj (<["products" := VArr resolved]> upsellData)]>
                        product)),
            w2)
         ∧ Forall2 entry_of
             (filter (λ item, is_Some (referred (docs w) item)) items)
             resolved).
Proof.
  intros Hget.
  assert (Hw1 : docs w1 = docs w).
  { pose proof (getEntity_docs "products" options w) as H.
    unfold getProduct in Hget. by rewrite Hget in H. }
  split; [|split].
  - intros [->|(product & -> & Hfalsy)];
      unfold getProductWithUpsell; run; rewrite Hget; run; [done|].
    by rewrite Hfalsy.
  - intros product u -> Htruthy Hu Hdoc.
    unfold getProductWithUpsell. run. rewrite Hget. run.
    rewrite Htruthy. cbn [negb]. run. rewrite Hu. run.
    by rewrite Hw1, Hdoc.
  - intros product u upsellData items -> Htruthy Hu Hdoc Hitems Hall.
    destruct (getProductWithUpsell_resolved options w w1 product upsellData
                u items Hget Htruthy Hu Hdoc Hitems Hall) as (w2 & Hrun & _).
    eexists _, w2. split; [exact Hrun|].
    eapply Forall2_impl; [by apply resolved_entries|].
    intros item entry (o & p & e & -> & _ & -> & H).
    exists o, e. repeat split; tauto.
Qed.

(** C4, as the code has it: in the resolved list every entry has its
    [slug], [mainImage], [basePrice] and [id] from the product that is
    stored now, and its [index] and its [name] from the item stored in the
    upsell. *)
Theorem upsell_snapshot_origins (options : SingleItemOptionsType)
    (w w1 : world) (product upsellData : obj) (u : path)
    (items : list value) :
  getProduct options w = (Ok (Some product), w1) →
  truthy (get product "upsell") = true →
  doc_path "upsells" (get product "upsell") = Ok u →
  docs w !! u = Some upsellData →
  upsellData !! "products" = Some (VArr items) →
  Forall (resolvable (docs w)) items →
  ∃ resolved,
    upsell_products (getProductWithUpsell options w) = Some resolved
    ∧ Forall2 (resolution_of (docs w))
        (filter (λ item, is_Some (referred (docs w) item)) items)
        resolved.
Proof.
  intros Hget Htruthy Hu Hdoc Hitems Hall.
  destruct (getProductWithUpsell_resolved options w w1 product upsellData
              u items Hget Htruthy Hu Hdoc Hitems Hall) as (w2 & Hrun & _).
  eexists. split; [|by apply resolved_entries].
  unfold upsell_products, field_of. rewrite Hrun. cbn [fst].
  by rewrite !lookup_insert_eq.
Qed.

Lemma plain_product_id_sound (s : string) :
  plain_product_id s = true →
  doc_path "products" (VStr s) = Ok ["products"; s].
Proof.
  unfold plain_product_id.
  destruct (doc_path "products" (VStr s)) as [[|c [|i [|]]]|]; try done.
  intros [Hc Hi]%andb_true_iff.
  apply String.eqb_eq in Hc, Hi. by subst.
Qed.

Lemma resolvableb_sound (m : gmap path obj) (item : value) :
  resolvableb m item = true → resolvable m item.
Proof.
  destruct item as [| | | | | |o]; try done. simpl.
  destruct (o !! "id") as [[| | | |s| |]|] eqn:Hid; try done.
  intros [Hp Hm]%andb_true_iff. exists s, o. split.
  - split; [done|]. split; [done|]. by apply plain_product_id_sound.
  - intros product Hproduct. rewrite Hproduct in Hm.
    apply andb_true_iff in Hm as [H1 H2].
    by apply negb_true_iff in H1, H2.
Qed.

Lemma catalog_shirt :
  getProduct (byId "p1" []) catalog =
    (Ok (Some shirt), World (docs catalog) [Read ["products"; "p1"]]).
Proof. vm_compute. reflexivity. Qed.

Lemma catalog_bundle_resolvable :
  Forall (resolvable (docs catalog))
         [hat_snapshot; gone_snapshot; shirt_snapshot].
Proof.
  repeat constructor; apply resolvableb_sound; vm_compute; reflexivity.
Qed.

Lemma getProductWithUpsell_absence_witness :
  getProductWithUpsell (byId "" []) catalog = (Ok None, catalog)
  ∧ getProductWithUpsell (byId "p2" []) catalog =
      (Ok (Some hat), World (docs catalog) [Read ["products"; "p2"]])
  ∧ getProductWithUpsell (byId "p3" []) catalog =
      (Ok (Some scarf),
       World (docs catalog) [Read ["products"; "p3"]; Read ["upsells"; "u9"]])
  ∧ ∃ resolved w2,
      getProductWithUpsell (byId "p1" []) catalog =
        (Ok (Some (<["upsell" :=
                      VObj (<["products" := VArr resolved]> bundle)]> shirt)),
         w2)
      ∧ Forall2 entry_of
          (filter (λ item, is_Some (referred (docs catalog) item))
                  [hat_snapshot; gone_snapshot; shirt_snapshot])
          resolved.
Proof.
  split; [|split; [|split]].
  - apply (getProductWithUpsell_absence (byId "" []) catalog catalog None);
      [vm_compute; reflexivity|].
    by left.
  - apply (getProductWithUpsell_absence (byId "p2" []) catalog
             (World (docs catalog) [Read ["products"; "p2"]]) (Some hat));
      [vm_compute; reflexivity|].
    right. exists hat. split; vm_compute; reflexivity.
  - destruct (getProductWithUpsell_absence (byId "p3" []) catalog
                (World (docs catalog) [Read ["products"; "p3"]]) (Some scarf))
      as (_ & Habsent & _); [vm_compute; reflexivity|].
    apply (Habsent scarf ["upsells"; "u9"]);
      [reflexivity|vm_compute; reflexivity..].
  - destruct (getProductWithUpsell_absence (byId "p1" []) catalog
                (World (docs catalog) [Read ["products"; "p1"]]) (Some shirt)
                catalog_shirt)
      as (_ & _ & Hresolved).
    apply (Hresolved shirt ["upsells"; "u1"] bundle);
      [reflexivity|vm_compute; reflexivity..|].
    exact catalog_bundle_resolvable.
Defined.

Lemma upsell_snapshot_origins_witness :
  ∃ resolved,
    upsell_products (getProductWithUpsell (byId "p1" []) catalog)
      = Some resolved
    ∧ Forall2 (resolution_of (docs catalog))
        (filter (λ item, is_Some (referred (docs catalog) item))
                [hat_snapshot; gone_snapshot; shirt_snapshot])
        resolved.
Proof.
  apply (upsell_snapshot_origins (byId "p1" []) catalog
           (World (docs catalog) [Read ["products"; "p1"]]) shirt bundle
           ["upsells"; "u1"] [hat_snapshot; gone_snapshot; shirt_snapshot]
           catalog_shirt);
    [vm_compute; reflexivity..|].
  exact catalog_bundle_resolvable.
Defined.

(** C4 as stated fails: the product [p2] is stored with the name [Hat],
    and the entry resolved for it carries the name [Old hat] of the item
    stored in the upsell, next to the slug, image and price that are
    stored now; the item of the product that is not stored is left out. *)
Lemma upsell_name_is_not_re_resolved :
  upsell_products (getProductWithUpsell (byId "p1" []) catalog) =
    Some [VObj (object [("index", VNum 2); ("name", VStr "Old hat");
                        ("id", VStr "p2"); ("slug", VStr "hat");
                        ("mainImage", VStr "hat.png");
                        ("basePrice", VNum 15)]);
          VObj (object [("index", VNum 1); ("name", VStr "Shirt");
                        ("id", VStr "p1"); ("slug", VStr "shirt");
                        ("mainImage", VStr "shirt.png");
                        ("basePrice", VNum 20)])]
  ∧ docs catalog !! ["products"; "p2"] = Some hat
  ∧ hat !! "name" = Some (VStr "Hat").
Proof. repeat split; vm_compute; reflexivity. Qed.

(* ===================================================================== *)
(** * Further properties of the repository *)
(* ===================================================================== *)

(** ** The reads never write *)

Lemma reads_only_ret {A} (a : A) : reads_only (mret a : M A).
Proof. done. Qed.

Lemma reads_only_lift {A} (r : outcome A) : reads_only (lift r).
Proof. done. Qed.

Lemma reads_only_doc (coll : string) (id : value) : reads_only (doc coll id).
Proof. done. Qed.

Lemma reads_only_getDoc (p : path) : reads_only (getDoc p).
Proof. done. Qed.

Lemma reads_only_getDocs (coll : string) (fs : list QueryConstraint) :
  reads_only (getDocs coll fs).
Proof. done. Qed.

Lemma reads_only_bind {A B} (m : M A) (k : A → M B) :
  reads_only m → (∀ a, reads_only (k a)) → reads_only (m ≫= k).
Proof.
  intros Hm Hk w. unfold mbind, M_bind. specialize (Hm w).
  destruct (m w) as [[a|] w1]; [|done].
  cbn [snd] in Hm. by rewrite Hk.
Qed.

Lemma reads_only_promise_all {A} (ms : list (M A)) :
  Forall reads_only ms → reads_only (promise_all ms).
Proof.
  induction 1 as [|m ms Hm _ IH]; [done|]. intros w. simpl.
  specialize (Hm w). destruct (m w) as [r w1]. specialize (IH w1).
  destruct (promise_all ms w1) as [rs w2]. cbn [snd] in *. congruence.
Qed.

Lemma reads_only_promise_all_fmap {A B} (f : A → M B) (l : list A) :
  (∀ x, reads_only (f x)) → reads_only (promise_all (f <$> l)).
Proof.
  intros Hf. apply reads_only_promise_all, Forall_fmap, Forall_forall.
  intros x _. apply Hf.
Qed.

Create HintDb reads discriminated.
#[local] Hint Resolve reads_only_ret reads_only_lift reads_only_doc
  reads_only_getDoc reads_only_getDocs : reads.

(** Going through the binds, the branches and the callbacks of a read. *)
Ltac reads_only :=
  repeat first
    [ progress intros
    | solve [auto with reads]
    | apply reads_only_bind
    | apply reads_only_promise_all_fmap
    | match goal with
      | |- reads_only (match ?x with _ => _ end) => destruct x
      end ].

Lemma reads_only_getEntity (coll : string) (options : SingleItemOptionsType) :
  reads_only (getEntity coll options).
Proof. unfold getEntity. reads_only. Qed.

Lemma reads_only_resolveUpsellProduct (item : value) :
  reads_only (resolveUpsellProduct item).
Proof. unfold resolveUpsellProduct. reads_only. Qed.

Lemma reads_only_expandCollectionProduct (ref : value) :
  reads_only (expandCollectionProduct ref).
Proof. unfold expandCollectionProduct. reads_only. Qed.

#[local] Hint Resolve reads_only_getEntity reads_only_resolveUpsellProduct
  reads_only_expandCollectionProduct : reads.

Lemma reads_only_collectionEntry (fields : list string)
    (d : QueryDocumentSnapshot) :
  reads_only (collectionEntry fields d).
Proof. unfold collectionEntry. reads_only. Qed.

#[local] Hint Resolve reads_only_collectionEntry : reads.

(** X1: none of the nine reads changes a stored document, on any store
    and for any options, whether it returns or throws. *)
Theorem reads_never_write (rt : runtime) :
  (∀ options, reads_only (getProduct options))
  ∧ (∀ options, reads_only (getCollection options))
  ∧ (∀ options, reads_only (getProducts rt options))
  ∧ (∀ options, reads_only (getProductsByIds rt options))
  ∧ (∀ options, reads_only (getProductWithUpsell options))
  ∧ (∀ options, reads_only (getCollections rt options))
  ∧ reads_only (getUpsells rt)
  ∧ (∀ id, reads_only (getUpsell rt id))
  ∧ reads_only (getCategories rt).
Proof.
  split; [|split; [|split; [|split; [|split; [|split; [|split; [|split]]]]]]].
  - unfold getProduct. reads_only.
  - unfold getCollection. reads_only.
  - unfold getProducts. reads_only.
  - unfold getProductsByIds. reads_only.
  - unfold getProductWithUpsell, getProduct. reads_only.
  - unfold getCollections. reads_only.
  - unfold getUpsells. reads_only.
  - unfold getUpsell. reads_only.
  - unfold getCategories. reads_only.
Qed.

(** ** The settings, again *)

Lemma reconcile_idempotent (stored : obj) :
  reconcile (reconcile stored).1 = ((reconcile stored).1, false).
Proof.
  assert (Hsame : (reconcile (reconcile stored).1).1 = (reconcile stored).1).
  { apply map_eq. intros k. rewrite !reconcile_lookup.
    destruct (js_in k defaultSettings); [|done].
    by case_bool_decide. }
  destruct (reconcile (reconcile stored).1) as [r b] eqn:Hr.
  cbn [fst] in Hsame. subst r. f_equal.
  destruct b; [|done]. exfalso.
  eapply (reconcile_changed (reconcile stored).1); by rewrite Hr.
Qed.

(** X2: [getSettings] is idempotent on every store: a second call returns
    the document of the first, after one read and no write. *)
Theorem getSettings_idempotent (w : world) :
  ∃ r w1,
    getSettings w = (Ok r, w1)
    ∧ docs w1 !! settingsRef = Some r
    ∧ getSettings w1 = (Ok r, World (docs w1) (trace w1 ++ [Read settingsRef])).
Proof.
  destruct (docs w !! settingsRef) as [stored|] eqn:Hdoc.
  - destruct (getSettings_present w stored Hdoc) as [Hrun Hflag].
    eexists _, _. split; [exact Hrun|].
    assert (Hstored : docs (if (reconcile stored).2
        then World (<[settingsRef := (reconcile stored).1]> (docs w))
               (trace w ++ [Read settingsRef;
                            Write settingsRef (reconcile stored).1])
        else World (docs w) (trace w ++ [Read settingsRef])) !! settingsRef
      = Some (reconcile stored).1).
    { destruct (reconcile stored).2 eqn:Hn; cbn [docs].
      - apply lookup_insert_eq.
      - by rewrite (reconcile_needsUpdate stored Hn). }
    split; [exact Hstored|].
    destruct (getSettings_present _ _ Hstored) as [Hagain _].
    rewrite Hagain. by rewrite reconcile_idempotent.
  - rewrite (getSettings_absent w Hdoc). eexists _, _. split; [reflexivity|].
    cbn [docs trace].
    assert (Hstored : <[settingsRef := defaultSettings]> (docs w) !! settingsRef
                      = Some defaultSettings) by apply lookup_insert_eq.
    split; [exact Hstored|].
    destruct (getSettings_present
                (World (<[settingsRef := defaultSettings]> (docs w))
                   (trace w ++ [Read settingsRef;
                                Write settingsRef defaultSettings]))
                defaultSettings Hstored) as [Hagain _].
    rewrite Hagain.
    assert (reconcile defaultSettings = (defaultSettings, false)) as ->
      by (vm_compute; reflexivity).
    done.
Qed.

(** X3: on a stored settings document none of whose keys is the name of an
    inherited member, [getSettings] returns a document with exactly the
    keys of the default schema, in which a stored [categorySection] keeps
    its value; it writes the document back when it differs from the stored
    one, and only then. *)
Theorem getSettings_reconciles (w : world) (stored : obj) :
  docs w !! settingsRef = Some stored →
  plain_keys stored →
  ∃ r w',
    getSettings w = (Ok r, w')
    ∧ dom r = dom defaultSettings
    ∧ r !! "categorySection" =
        Some (default (VObj {["visibility" := VStr "HIDDEN"]})
                      (stored !! "categorySection"))
    ∧ (r = stored → w' = World (docs w) (trace w ++ [Read settingsRef]))
    ∧ (r ≠ stored →
       w' = World (<[settingsRef := r]> (docs w))
                  (trace w ++ [Read settingsRef; Write settingsRef r])).
Proof.
  intros Hdoc Hplain.
  destruct (getSettings_present w stored Hdoc) as [Hrun Hflag].
  destruct (reconcile_key_set stored) as [Hdom Hsection].
  { intros k [v Hv]. by eapply Hplain. }
  eexists _, _. split; [exact Hrun|]. split; [exact Hdom|].
  split; [exact Hsection|]. split.
  - intros Hsame. destruct (reconcile stored).2 eqn:Hn; [|done].
    exfalso. by apply Hflag.
  - intros Hdiff. apply Hflag in Hdiff. by rewrite Hdiff.
Qed.

Lemma getSettings_reconciles_witness :
  ∃ r w',
    getSettings (Engine.store [(settingsRef, stale_settings)]) = (Ok r, w')
    ∧ dom r = dom defaultSettings
    ∧ r !! "categorySection" =
        Some (default (VObj {["visibility" := VStr "HIDDEN"]})
                      (stale_settings !! "categorySection"))
    ∧ (r = stale_settings →
       w' = World (docs (Engine.store [(settingsRef, stale_settings)]))
                  (trace (Engine.store [(settingsRef, stale_settings)])
                     ++ [Read settingsRef]))
    ∧ (r ≠ stale_settings →
       w' = World (<[settingsRef := r]>
                     (docs (Engine.store [(settingsRef, stale_settings)])))
                  (trace (Engine.store [(settingsRef, stale_settings)])
                     ++ [Read settingsRef; Write settingsRef r])).
Proof.
  apply (getSettings_reconciles
           (Engine.store [(settingsRef, stale_settings)]) stale_settings).
  - vm_compute. reflexivity.
  - compute_done.
Defined.

Lemma getPageHero_absent (w : world) :
  docs w !! pageHeroRef = None →
  getPageHero w =
    (Ok (<["id" := VStr "homepageHero"]> defaultPageHero),
     World (<[pageHeroRef := defaultPageHero]> (docs w))
           (trace w ++ [Read pageHeroRef; Write pageHeroRef defaultPageHero])).
Proof.
  intros Hdoc. unfold getPageHero. run. rewrite doc_pageHero. run.
  rewrite Hdoc. run. by rewrite <- app_assoc.
Qed.

Lemma getPageHero_present (w : world) (stored : obj) :
  docs w !! pageHeroRef = Some stored →
  getPageHero w =
    (Ok (spread stored {["id" := VStr "homepageHero"]}),
     World (docs w) (trace w ++ [Read pageHeroRef])).
Proof.
  intros Hdoc. unfold getPageHero. run. rewrite doc_pageHero. run.
  by rewrite Hdoc.
Qed.

(** X4: the two bootstraps touch no document but their own, and after
    either of them its document is stored. *)
Theorem bootstraps_frame (w : world) :
  (∀ p, p ≠ settingsRef → docs (getSettings w).2 !! p = docs w !! p)
  ∧ is_Some (docs (getSettings w).2 !! settingsRef)
  ∧ (∀ p, p ≠ pageHeroRef → docs (getPageHero w).2 !! p = docs w !! p)
  ∧ is_Some (docs (getPageHero w).2 !! pageHeroRef).
Proof.
  split; [|split; [|split]].
  - intros p Hp. destruct (docs w !! settingsRef) as [stored|] eqn:Hdoc.
    + destruct (getSettings_present w stored Hdoc) as [-> _]. cbn [snd].
      destruct (reconcile stored).2; cbn [docs]; [|done].
      by rewrite lookup_insert_ne.
    + rewrite (getSettings_absent w Hdoc). cbn [snd docs].
      by rewrite lookup_insert_ne.
  - destruct (docs w !! settingsRef) as [stored|] eqn:Hdoc.
    + destruct (getSettings_present w stored Hdoc) as [-> _]. cbn [snd].
      destruct (reconcile stored).2; cbn [docs].
      * rewrite lookup_insert_eq. eauto.
      * rewrite Hdoc. eauto.
    + rewrite (getSettings_absent w Hdoc). cbn [snd docs].
      rewrite lookup_insert_eq. eauto.
  - intros p Hp. destruct (docs w !! pageHeroRef) as [stored|] eqn:Hdoc.
    + by rewrite (getPageHero_present w stored Hdoc).
    + rewrite (getPageHero_absent w Hdoc). cbn [snd docs].
      by rewrite lookup_insert_ne.
  - destruct (docs w !! pageHeroRef) as [stored|] eqn:Hdoc.
    + rewrite (getPageHero_present w stored Hdoc). cbn [snd docs].
      rewrite Hdoc. eauto.
    + rewrite (getPageHero_absent w Hdoc). cbn [snd docs].
      rewrite lookup_insert_eq. eauto.
Qed.

(** ** What the list reads return *)

Lemma Array_map_length {A B} (f : A → outcome B) (l : list A) (r : list B) :
  Array_map f l = Ok r → length r = length l.
Proof. intros H%Array_map_Forall2. symmetry. by eapply Forall2_length. Qed.

Lemma sort_with_nonempty {A} (cmp : A → A → option Z) (l : list A) :
  l ≠ [] → sort_with cmp l ≠ [].
Proof.
  intros Hl Hs. apply Hl. apply Permutation_nil_r.
  by rewrite <- (sort_with_Permutation cmp l), Hs.
Qed.

Lemma sort_insert_nonempty {A} (cmp : A → A → option Z) (x : A)
    (l : list A) :
  sort_insert cmp x l ≠ [].
Proof. destruct l as [|y l]; simpl; [done|]. by destruct (after _). Qed.

(** X5: [getProducts], [getProductsByIds], [getCollections] and
    [getCategories] never return an empty list: what they return is [null]
    or a list with an entry. *)
Theorem guarded_lists_never_empty (rt : runtime) (w : world) :
  (∀ options l w', getProducts rt options w = (Ok (Some l), w') → l ≠ [])
  ∧ (∀ options l w',
       getProductsByIds rt options w = (Ok (Some l), w') → l ≠ [])
  ∧ (∀ options l w',
       getCollections rt options w = (Ok (Some l), w') → l ≠ [])
  ∧ (∀ l w', getCategories rt w = (Ok (Some l), w') → l ≠ []).
Proof.
  split; [|split; [|split]].
  - intros options l w'. unfold getProducts. run.
    destruct (visibility_constraint _) as [fs|]; [|intros [=]]. run.
    destruct (select "products" fs (docs w)) as [|d snapshot] eqn:Hsel;
      [intros [=]|].
    destruct (Array_map _ _) as [products|] eqn:Hmap; [|intros [=]]. run.
    intros [= <- <-]. apply sort_with_nonempty.
    apply Array_map_length in Hmap. by destruct products.
  - intros options l w'. unfold getProductsByIds.
    destruct (sm_ids _) as [|i ids]; [intros [=]|]. run.
    destruct (where_in rt _) as [byName|]; [|intros [=]]. run.
    destruct (visibility_constraint _) as [fs|]; [|intros [=]]. run.
    destruct (select "products" (byName :: fs) (docs w))
      as [|d snapshot] eqn:Hsel; [intros [=]|].
    destruct (Array_map _ _) as [products|] eqn:Hmap; [|intros [=]]. run.
    intros [= <- <-]. apply sort_with_nonempty.
    apply Array_map_length in Hmap. by destruct products.
  - intros options l w'. unfold getCollections. run.
    destruct (visibility_constraint _) as [fs|]; [|intros [=]]. run.
    destruct (select "collections" fs (docs w)) as [|d snapshot] eqn:Hsel;
      [intros [=]|].
    destruct (promise_all _ _) as [[collections|] w1] eqn:Hall;
      [|intros [=]]. run.
    intros [= <- <-]. apply sort_with_nonempty.
    apply promise_all_Forall2, Forall2_length in Hall.
    by destruct collections.
  - intros l w'. unfold getCategories. run.
    destruct (select "categories" [] (docs w)) as [|d snapshot] eqn:Hsel;
      [intros [=]|].
    run. intros [= <- <-]. apply sort_insert_nonempty.
Qed.

(** ** The documents a query selects *)

Lemma elem_of_select (coll : string) (fs : list QueryConstraint)
    (m : gmap path obj) (d : QueryDocumentSnapshot) :
  d ∈ select coll fs m ↔
  m !! [coll; q_id d] = Some (q_data d)
  ∧ Forall (λ f, matches f d = true) fs.
Proof.
  unfold select. rewrite list_elem_of_filter, elem_of_collection_docs.
  rewrite forallb_forall, Forall_forall.
  setoid_rewrite list_elem_of_In. tauto.
Qed.

Lemma in_collection_id (coll : string) (e : path * obj)
    (d : QueryDocumentSnapshot) :
  in_collection coll e = Some d → e.1 = [coll; q_id d].
Proof.
  unfold in_collection. destruct e as [[|c [|i [|]]] o]; simpl; try done.
  destruct (decide (c = coll)) as [->|]; [|done]. by intros [= <-].
Qed.

Lemma NoDup_collection_ids (coll : string) (m : gmap path obj) :
  NoDup (q_id <$> collection_docs coll m).
Proof.
  unfold collection_docs.
  pose proof (NoDup_fst_map_to_list m) as Hnodup.
  induction (map_to_list m) as [|e l IH]; [constructor|].
  apply NoDup_cons in Hnodup as [Hnotin Hnodup]. csimpl.
  destruct (in_collection coll e) as [d|] eqn:He; [|by apply IH].
  csimpl. apply NoDup_cons. split; [|by apply IH].
  intros (d' & Hid & Hd')%list_elem_of_fmap.
  apply list_elem_of_omap in Hd' as (e' & He' & Hin).
  apply Hnotin. apply list_elem_of_fmap. exists e'. split; [|done].
  apply in_collection_id in He, Hin. congruence.
Qed.

Lemma NoDup_select_ids (coll : string) (fs : list QueryConstraint)
    (m : gmap path obj) :
  NoDup (q_id <$> select coll fs m).
Proof.
  apply (sublist_NoDup _ (q_id <$> collection_docs coll m)).
  - apply NoDup_collection_ids.
  - apply fmap_sublist. unfold select. apply sublist_filter.
Qed.

Lemma matches_FEq_string (k s : string) (d : QueryDocumentSnapshot) :
  matches (FEq k (VStr s)) d = true ↔ q_data d !! k = Some (VStr s).
Proof.
  cbn [matches]. destruct (q_data d !! k) as [x|]; [|done].
  destruct x; cbn [value_eqb]; try (split; intros [=]; fail).
  rewrite bool_decide_eq_true. split; congruence.
Qed.

Lemma where_in_ok (rt : runtime) (ids : list string) (f : QueryConstraint) :
  where_in rt ids = Ok f → f = FIdIn ids.
Proof. unfold where_in. destruct (_ || _); [done|]. by intros [= <-]. Qed.

(** The constraint the validated visibility of [getProductsByIds] gives. *)
Lemma sanitized_visibility_constraint
    (options : GetProductsByIdsOptionsType) :
  let v := sm_visibility (sanitizeMultiItemOptions options) in
  (v = VUndef ∧ visibility_constraint v = Ok [])
  ∨ (∃ s, v = VStr s ∧ s ∈ validVisibilityFlags
          ∧ visibility_constraint v = Ok [FEq "visibility" (VStr s)]).
Proof.
  cbn [sm_visibility sanitizeMultiItemOptions].
  destruct (mi_visibility options) as [| | | |s| |]; try (by left).
  case_bool_decide as Hin; [|by left].
  right. exists (toUpperCase s). split; [done|]. split; [done|].
  unfold validVisibilityFlags in Hin.
  rewrite !elem_of_cons, elem_of_nil in Hin.
  destruct Hin as [->|[->|[->|[]]]]; reflexivity.
Qed.

(** X6: [getProductsByIds] returns one entry for each stored product whose
    key is among the sanitized ids and, when a valid visibility was given,
    whose stored visibility is that flag; no product is returned twice,
    also when its id was given twice. *)
Theorem getProductsByIds_selects (rt : runtime) (w : world)
    (options : GetProductsByIdsOptionsType) (l : list obj) (w' : world) :
  unshadowed w →
  getProductsByIds rt options w = (Ok (Some l), w') →
  ∃ snapshot,
    l ≡ₚ product_entry (sm_fields (sanitizeMultiItemOptions options))
           <$> snapshot
    ∧ NoDup (q_id <$> snapshot)
    ∧ ∀ d, d ∈ snapshot ↔
        docs w !! ["products"; q_id d] = Some (q_data d)
        ∧ q_id d ∈ sm_ids (sanitizeMultiItemOptions options)
        ∧ (sm_visibility (sanitizeMultiItemOptions options) = VUndef
           ∨ q_data d !! "visibility"
             = Some (sm_visibility (sanitizeMultiItemOptions options))).
Proof.
  intros Hw Hrun. set (sanitized := sanitizeMultiItemOptions options) in *.
  assert (Hne : sm_ids sanitized ≠ []).
  { intros Hids. revert Hrun. unfold getProductsByIds. fold sanitized.
    by rewrite Hids. }
  destruct (where_in rt (sm_ids sanitized)) as [byName|] eqn:Hin.
  2:{ exfalso. revert Hrun. unfold getProductsByIds. fold sanitized.
      destruct (sm_ids sanitized); [done|]. run. by rewrite Hin. }
  pose proof (where_in_ok _ _ _ Hin) as ->.
  destruct (sanitized_visibility_constraint options)
    as [[Hv Hfs]|(s & Hv & Hflag & Hfs)]; fold sanitized in Hv, Hfs.
  - rewrite (getProductsByIds_result rt options
               (FIdIn (sm_ids sanitized)) [] w Hw) in Hrun;
      [|done..].
    fold sanitized in Hrun.
    exists (select "products" [FIdIn (sm_ids sanitized)] (docs w)).
    split; [|split; [apply NoDup_select_ids|]].
    + destruct (select _ _ _) as [|d snapshot]; [done|].
      injection Hrun as <- _.
      exact (sortItems_Permutation rt (_ <$> d :: snapshot) "updatedAt" true).
    + intros d. rewrite elem_of_select, Forall_singleton. cbn [matches].
      rewrite bool_decide_eq_true, Hv. intuition.
  - rewrite (getProductsByIds_result rt options
               (FIdIn (sm_ids sanitized)) [FEq "visibility" (VStr s)] w Hw)
      in Hrun; [|done|done|exact Hfs].
    fold sanitized in Hrun.
    exists (select "products"
              [FIdIn (sm_ids sanitized); FEq "visibility" (VStr s)] (docs w)).
    split; [|split; [apply NoDup_select_ids|]].
    + destruct (select _ _ _) as [|d snapshot]; [done|].
      injection Hrun as <- _.
      exact (sortItems_Permutation rt (_ <$> d :: snapshot) "updatedAt" true).
    + intros d. rewrite elem_of_select, Forall_cons, Forall_singleton.
      rewrite matches_FEq_string. cbn [matches].
      rewrite bool_decide_eq_true. rewrite Hv.
      split; [intuition|]. intros (? & ? & [[=]|?]). done.
Qed.

Lemma getProductsByIds_selects_witness :
  ∃ snapshot,
    [product_entry [] {| q_id := "p1"; q_data := shirt |}]
      ≡ₚ product_entry (sm_fields (sanitizeMultiItemOptions someIds))
           <$> snapshot
    ∧ NoDup (q_id <$> snapshot)
    ∧ ∀ d, d ∈ snapshot ↔
        docs catalog !! ["products"; q_id d] = Some (q_data d)
        ∧ q_id d ∈ sm_ids (sanitizeMultiItemOptions someIds)
        ∧ (sm_visibility (sanitizeMultiItemOptions someIds) = VUndef
           ∨ q_data d !! "visibility"
             = Some (sm_visibility (sanitizeMultiItemOptions someIds))).
Proof.
  apply (getProductsByIds_selects Engine.engine catalog someIds _
           (World (docs catalog)
              [Query "products"
                 [FIdIn ["p1"; "p1"; "nope"; "p2"];
                  FEq "visibility" (VStr "PUBLISHED")]])).
  - compute_done.
  - vm_compute. reflexivity.
Defined.

(** X7: [getProducts] returns one entry for each stored product when the
    visibility is left out (or falsy), and for a visibility string one
    entry for each stored product whose stored visibility is literally
    that string: the string is not validated or upper-cased. *)
Theorem getProducts_selects (rt : runtime) (w : world)
    (options : BaseOptionsType) (l : list obj) (w' : world) :
  unshadowed w →
  getProducts rt options w = (Ok (Some l), w') →
  ∃ snapshot,
    l ≡ₚ product_entry (filter_strings (b_fields options)) <$> snapshot
    ∧ NoDup (q_id <$> snapshot)
    ∧ (truthy (b_visibility options) = false →
       ∀ d, d ∈ snapshot ↔ docs w !! ["products"; q_id d] = Some (q_data d))
    ∧ (∀ s, b_visibility options = VStr s → s ≠ "" →
       ∀ d, d ∈ snapshot ↔
         docs w !! ["products"; q_id d] = Some (q_data d)
         ∧ q_data d !! "visibility" = Some (VStr s)).
Proof.
  intros Hw Hrun.
  destruct (getProducts_entries rt w options l w' Hw Hrun)
    as (fs & Hfs & Hperm).
  exists (select "products" fs (docs w)).
  split; [exact Hperm|]. split; [apply NoDup_select_ids|]. split.
  - intros Hfalsy d. unfold visibility_constraint in Hfs.
    rewrite Hfalsy in Hfs. injection Hfs as <-.
    rewrite elem_of_select. split; [tauto|]. intros H. split; [done|].
    constructor.
  - intros s Hs Hne d. unfold visibility_constraint in Hfs.
    rewrite Hs in Hfs. cbn [truthy] in Hfs.
    apply String.eqb_neq in Hne. rewrite Hne in Hfs. cbn in Hfs.
    injection Hfs as <-.
    rewrite elem_of_select, Forall_singleton. by rewrite matches_FEq_string.
Qed.

Lemma getProducts_selects_witness :
  ∃ snapshot,
    [product_entry [] {| q_id := "p3"; q_data := scarf |};
     product_entry [] {| q_id := "p1"; q_data := shirt |}]
      ≡ₚ product_entry (filter_strings (b_fields published)) <$> snapshot
    ∧ NoDup (q_id <$> snapshot)
    ∧ (truthy (b_visibility published) = false →
       ∀ d, d ∈ snapshot ↔
         docs catalog !! ["products"; q_id d] = Some (q_data d))
    ∧ (∀ s, b_visibility published = VStr s → s ≠ "" →
       ∀ d, d ∈ snapshot ↔
         docs catalog !! ["products"; q_id d] = Some (q_data d)
         ∧ q_data d !! "visibility" = Some (VStr s)).
Proof.
  apply (getProducts_selects Engine.engine catalog published _
           (World (docs catalog)
              [Query "products" [FEq "visibility" (VStr "PUBLISHED")]])).
  - compute_done.
  - vm_compute. reflexivity.
Defined.

(** ** One upsell *)

(** X8: an upsell that [getUpsell] returns always has an array under
    [products], the empty one when the stored [products] is missing or
    falsy; its other stored fields are returned as they are, with the id
    attached, after exactly one point read. *)
Theorem getUpsell_shape (rt : runtime) (id : value) (w : world) (r : obj)
    (w' : world) :
  getUpsell rt id w = (Ok (Some r), w') →
  ∃ p data l,
    doc_path "upsells" id = Ok p
    ∧ docs w !! p = Some data
    ∧ w' = World (docs w) (trace w ++ [Read p])
    ∧ r !! "products" = Some (VArr l)
    ∧ (truthy (get data "products") = false → l = [])
    ∧ r !! "id" = Some (default (VStr (List.last p "")) (data !! "id"))
    ∧ ∀ k, k ≠ "products" → k ≠ "id" → r !! k = data !! k.
Proof.
  unfold getUpsell. run.
  destruct (doc_path "upsells" id) as [p|]; [|intros [=]]. run.
  destruct (docs w !! p) as [data|] eqn:Hdoc; [|intros [=]].
  set (sorted := if truthy (get data "products")
                 then obind (iterate (get data "products"))
                        (Array_sort (by_index rt))
                 else Ok []).
  destruct sorted as [l|] eqn:Hsorted; [|intros [=]]. run.
  intros [= <- <-]. exists p, data, l.
  split; [done|]. split; [done|]. split; [done|].
  split; [apply lookup_insert_eq|]. split; [|split].
  - intros Hfalsy. subst sorted. rewrite Hfalsy in Hsorted.
    by injection Hsorted as <-.
  - rewrite lookup_insert_ne by done. rewrite spread_id_lookup.
    by rewrite decide_True.
  - intros k Hk Hid. rewrite lookup_insert_ne by done.
    rewrite spread_id_lookup. by rewrite decide_False.
Qed.

Lemma getUpsell_shape_witness :
  ∃ p data l,
    doc_path "upsells" (VStr " ") = Ok p
    ∧ docs blank_upsell_store !! p = Some data
    ∧ World (docs blank_upsell_store) [Read ["upsells"; " "]]
      = World (docs blank_upsell_store)
              (trace blank_upsell_store ++ [Read p])
    ∧ (<["products" := VArr []]>
         (<["id" := VStr " "]> {["visibility" := VStr "DRAFT"]}) : obj)
        !! "products" = Some (VArr l)
    ∧ (truthy (get data "products") = false → l = [])
    ∧ (<["products" := VArr []]>
         (<["id" := VStr " "]> {["visibility" := VStr "DRAFT"]}) : obj)
        !! "id" = Some (default (VStr (List.last p "")) (data !! "id"))
    ∧ ∀ k, k ≠ "products" → k ≠ "id" →
        (<["products" := VArr []]>
           (<["id" := VStr " "]> {["visibility" := VStr "DRAFT"]}) : obj)
          !! k = data !! k.
Proof.
  apply (getUpsell_shape Engine.engine (VStr " ") blank_upsell_store).
  vm_compute. reflexivity.
Defined.

(** ** Exceptions of the upsell resolution *)

Lemma promise_all_throws {A : Type} (m0 : gmap path obj) (ms : list (M A))
    (w : world) :
  Forall reads_only ms →
  Exists (λ m, ∀ wa, docs wa = m0 → (m wa).1 = Throw) ms →
  docs w = m0 →
  (promise_all ms w).1 = Throw.
Proof.
  intros Hreads Hex. revert w.
  induction Hex as [m ms Hm|m ms _ IH]; intros w Hw;
    apply Forall_cons in Hreads as [Hr Hreads]; simpl.
  - specialize (Hm w Hw). destruct (m w) as [r w1]. cbn [fst] in Hm. subst r.
    by destruct (promise_all ms w1).
  - specialize (Hr w). destruct (m w) as [r w1]. cbn [snd] in Hr.
    specialize (IH Hreads w1 ltac:(congruence)).
    destruct (promise_all ms w1) as [rs w2]. cbn [fst] in IH. subst rs.
    by destruct r.
Qed.

Lemma member_nullish (v : value) (k : string) :
  nullish v = true → member v k = Throw.
Proof. by destruct v. Qed.

Lemma resolveUpsellProduct_throws (m : gmap path obj) (item : value)
    (wa : world) :
  unresolvable m item → docs wa = m →
  (resolveUpsellProduct item wa).1 = Throw.
Proof.
  intros (s & o & product & (-> & Hid & Hp) & Hm & Hbad) Hwa.
  unfold resolveUpsellProduct. run.
  cbn [member]. rewrite (get_lookup o "id" _ Hid). run. rewrite Hp. run.
  rewrite Hwa, Hm. run.
  destruct (nullish (get product "images")) eqn:Himages.
  - by rewrite (member_nullish _ _ Himages).
  - rewrite (member_nested product "images" "main" Himages). run.
    destruct Hbad as [[=]|Hpricing].
    by rewrite (member_nullish _ _ Hpricing).
Qed.

(** X9: when the upsell of the product is stored and one of its items
    refers to a stored product that has no images or no pricing,
    [getProductWithUpsell] throws instead of returning. *)
Theorem getProductWithUpsell_throws (options : SingleItemOptionsType)
    (w w1 : world) (product upsellData : obj) (u : path)
    (items : list value) :
  getProduct options w = (Ok (Some product), w1) →
  truthy (get product "upsell") = true →
  doc_path "upsells" (get product "upsell") = Ok u →
  docs w !! u = Some upsellData →
  upsellData !! "products" = Some (VArr items) →
  Exists (unresolvable (docs w)) items →
  (getProductWithUpsell options w).1 = Throw.
Proof.
  intros Hget Htruthy Hu Hdoc Hitems Hbad.
  assert (Hw1 : docs w1 = docs w).
  { pose proof (getEntity_docs "products" options w) as H.
    unfold getProduct in Hget. by rewrite Hget in H. }
  unfold getProductWithUpsell. run. rewrite Hget. run.
  rewrite Htruthy. cbn [negb]. run. rewrite Hu. run.
  rewrite Hw1, Hdoc. run.
  rewrite (get_lookup _ _ _ Hitems). cbn [as_array]. run.
  pose proof (promise_all_throws (docs w) (resolveUpsellProduct <$> items)
                (World (docs w) (trace w1 ++ [Read u]))) as Hthrow.
  destruct (promise_all _ _) as [[r|] w2]; [|done].
  exfalso. cbn [fst] in Hthrow. discriminate Hthrow; [| |done].
  - apply Forall_fmap, Forall_forall. intros item _.
    apply reads_only_resolveUpsellProduct.
  - apply Exists_fmap. eapply Exists_impl; [exact Hbad|].
    intros item Hitem wa Hwa. by apply (resolveUpsellProduct_throws (docs w)).
Qed.

Lemma getProductWithUpsell_throws_witness :
  (getProductWithUpsell (byId "a" []) broken_catalog).1 = Throw.
Proof.
  apply (getProductWithUpsell_throws (byId "a" []) broken_catalog
           (World (docs broken_catalog) [Read ["products"; "a"]])
           (object [("id", VStr "a"); ("name", VStr "A");
                    ("upsell", VStr "u")])
           (object [("products",
                     VArr [VObj (object [("id", VStr "b");
                                         ("index", VNum 0)])])])
           ["upsells"; "u"]
           [VObj (object [("id", VStr "b"); ("index", VNum 0)])]);
    [vm_compute; reflexivity..|].
  apply Exists_cons_hd.
  exists "b", (object [("id", VStr "b"); ("index", VNum 0)]),
    (object [("name", VStr "B")]).
  split; [repeat split; vm_compute; reflexivity|].
  split; [vm_compute; reflexivity|]. left. vm_compute. reflexivity.
Defined.

(** ** The field list *)

Lemma select_fields_shadowed (fields : list string) (data sel : obj) :
  is_Some (data !! "hasOwnProperty") → fields ≠ [] →
  select_fields fields data sel = Throw.
Proof.
  intros [x Hx] Hne. destruct fields as [|f fields]; [done|].
  simpl. unfold hasOwnProperty. by rewrite Hx.
Qed.

Lemma requested_ext (fields fields' : list string) (data : obj) :
  (∀ k, k ∈ fields ↔ k ∈ fields') →
  requested fields data = requested fields' data.
Proof.
  intros Hsame. apply map_eq. intros k. rewrite !requested_lookup.
  specialize (Hsame k). repeat case_decide; tauto || done.
Qed.

Lemma pick_ext (fields fields' : list string) (data : obj) :
  same_fields fields fields' → pick fields data = pick fields' data.
Proof.
  intros (Hne & Hne' & Hsame).
  destruct (data !! "hasOwnProperty") as [x|] eqn:Hx.
  - destruct fields as [|f fields]; [done|].
    destruct fields' as [|f' fields']; [done|].
    unfold pick. by rewrite !select_fields_shadowed by eauto.
  - rewrite !pick_projection by done.
    destruct fields as [|f fields]; [done|].
    destruct fields' as [|f' fields']; [done|].
    cbn [projection]. f_equal. by apply requested_ext.
Qed.

Lemma Array_map_ext {A B} (f g : A → outcome B) (l : list A) :
  (∀ x, f x = g x) → Array_map f l = Array_map g l.
Proof.
  intros Hfg. induction l as [|x l IH]; [done|]. simpl. by rewrite Hfg, IH.
Qed.



(** ** The id *)

(** X11: with an id that is not a string, [getProduct], [getCollection]
    and [getProductWithUpsell] throw before anything is sent to the
    store. *)
Theorem id_must_be_a_string (id fields : value) (w : world) :
  as_string id = None →
  getProduct {| si_id := id; si_fields := fields |} w = (Throw, w)
  ∧ getCollection {| si_id := id; si_fields := fields |} w = (Throw, w)
  ∧ getProductWithUpsell {| si_id := id; si_fields := fields |} w
    = (Throw, w).
Proof.
  intros Hid.
  assert (Hentity : ∀ coll,
    getEntity coll {| si_id := id; si_fields := fields |} w = (Throw, w)).
  { intros coll. unfold getEntity. run. by destruct id. }
  split; [apply Hentity|]. split; [apply Hentity|].
  unfold getProductWithUpsell, getProduct. run. by rewrite Hentity.
Qed.

Lemma id_must_be_a_string_witness :
  getProduct {| si_id := VUndef; si_fields := VUndef |} catalog
    = (Throw, catalog)
  ∧ getCollection {| si_id := VUndef; si_fields := VUndef |} catalog
    = (Throw, catalog)
  ∧ getProductWithUpsell {| si_id := VUndef; si_fields := VUndef |} catalog
    = (Throw, catalog).
Proof. apply (id_must_be_a_string VUndef VUndef catalog). reflexivity. Defined.

(** ** The upsell is expanded only when it is selected *)

Lemma pick_unrequested (fields : list string) (data sel : obj) (k : string) :
  fields ≠ [] → k ∉ fields → pick fields data = Ok sel → sel !! k = None.
Proof.
  intros Hne Hk Hpick.
  destruct (data !! "hasOwnProperty") as [x|] eqn:Hx.
  - destruct fields as [|f fields]; [done|]. unfold pick in Hpick.
    rewrite select_fields_shadowed in Hpick by eauto. discriminate Hpick.
  - rewrite pick_projection in Hpick by done.
    destruct fields as [|f fields]; [done|]. cbn [projection] in Hpick.
    injection Hpick as <-. rewrite requested_lookup. by rewrite decide_False.
Qed.

(** X12: when a non-empty field list does not name [upsell],
    [getProductWithUpsell] does what [getProduct] does: the upsell is
    neither read nor attached, whatever the stored product refers to. *)
Theorem upsell_needs_its_field (id fields : value) (w : world) :
  filter_strings fields ≠ [] →
  "upsell" ∉ filter_strings fields →
  getProductWithUpsell {| si_id := id; si_fields := fields |} w
  = getProduct {| si_id := id; si_fields := fields |} w.
Proof.
  intros Hne Hup. unfold getProductWithUpsell, getProduct, getEntity. run.
  destruct id as [| | | |s| |]; try done. run.
  destruct (String.eqb (trim s) ""); [done|]. run.
  destruct (doc_path "products" (VStr (trim s))) as [p|]; [|done]. run.
  destruct (docs w !! p) as [data|]; [|done].
  destruct (pick (filter_strings fields) data) as [sel|] eqn:Hpick; [|done].
  run. unfold get, spread. rewrite lookup_union.
  rewrite (pick_unrequested _ _ _ "upsell" Hne Hup Hpick).
  rewrite lookup_singleton_ne by discriminate. done.
Qed.

Lemma upsell_needs_its_field_witness :
  getProductWithUpsell
    {| si_id := VStr "p1"; si_fields := VArr [VStr "name"] |} catalog
  = getProduct {| si_id := VStr "p1"; si_fields := VArr [VStr "name"] |}
      catalog.
Proof.
  apply (upsell_needs_its_field (VStr "p1") (VArr [VStr "name"]) catalog).
  - discriminate.
  - change ("upsell" ∉ ["name"]). rewrite elem_of_cons, elem_of_nil.
    intros [H|[]]. discriminate H.
Defined.

(** ** White space around the id *)

Lemma append_cons (a : ascii) (s t : string) :
  String a s +:+ t = String a (s +:+ t).
Proof. reflexivity. Qed.

Lemma rev_app_append (s t u : string) :
  String.rev_app s (t +:+ u) = String.rev_app s t +:+ u.
Proof.
  revert t. induction s as [|a s IH]; intros t; [done|].
  change (String.rev_app s (String a t +:+ u)
          = String.rev_app s (String a t) +:+ u). apply IH.
Qed.

Lemma rev_cons (a : ascii) (s : string) :
  String.rev (String a s) = String.rev s +:+ String a "".
Proof. apply (rev_app_append s "" (String a "")). Qed.

Lemma rev_snoc (s : string) (c : ascii) :
  String.rev (s +:+ String c "") = String c (String.rev s).
Proof.
  induction s as [|a s IH]; [done|].
  by rewrite append_cons, !rev_cons, IH.
Qed.

Lemma rev_involutive (s : string) : String.rev (String.rev s) = s.
Proof.
  induction s as [|a s IH]; [done|].
  by rewrite rev_cons, rev_snoc, IH.
Qed.

Lemma trimStart_cons (a : ascii) (s : string) :
  trimStart (String a s) = if is_ws a then trimStart s else String a s.
Proof. reflexivity. Qed.

Lemma trimStart_idempotent (s : string) :
  trimStart (trimStart s) = trimStart s.
Proof.
  induction s as [|a s IH]; [done|].
  rewrite trimStart_cons. destruct (is_ws a) eqn:Ha; [exact IH|].
  by rewrite trimStart_cons, Ha.
Qed.

Lemma trimStart_snoc (s : string) (c : ascii) :
  is_ws c = false →
  trimStart (s +:+ String c "") = trimStart s +:+ String c "".
Proof.
  intros Hc. induction s as [|a s IH].
  - change (trimStart (String c "") = String c ""). 
    by rewrite trimStart_cons, Hc.
  - rewrite append_cons, !trimStart_cons.
    destruct (is_ws a); [exact IH|]. by rewrite append_cons.
Qed.

Lemma trimStart_length (s : string) :
  String.length (trimStart s) ≤ String.length s.
Proof.
  induction s as [|a s IH]; [done|].
  rewrite trimStart_cons. destruct (is_ws a); cbn [String.length]; lia.
Qed.

Lemma trim_trimmed_start (s : string) :
  trimStart s = s → trimStart (String.rev (trimStart (String.rev s)))
                    = String.rev (trimStart (String.rev s)).
Proof.
  destruct s as [|c s]; [done|].
  rewrite trimStart_cons. destruct (is_ws c) eqn:Hc.
  - intros Hs. exfalso. pose proof (trimStart_length s) as Hlen.
    rewrite Hs in Hlen. cbn [String.length] in Hlen. lia.
  - intros _. rewrite rev_cons, trimStart_snoc by done.
    by rewrite rev_snoc, trimStart_cons, Hc.
Qed.

Lemma trim_idempotent (s : string) : trim (trim s) = trim s.
Proof.
  unfold trim.
  rewrite (trim_trimmed_start (trimStart s)) by apply trimStart_idempotent.
  by rewrite rev_involutive, trimStart_idempotent.
Qed.

(** X13: white space around the id is ignored: [getProduct] and
    [getCollection] do with an id what they do with the trimmed id, the
    operations sent to the store included. *)
Theorem id_is_trimmed (id : string) (fields : value) (w : world) :
  getProduct {| si_id := VStr id; si_fields := fields |} w
  = getProduct {| si_id := VStr (trim id); si_fields := fields |} w
  ∧ getCollection {| si_id := VStr id; si_fields := fields |} w
    = getCollection {| si_id := VStr (trim id); si_fields := fields |} w.
Proof.
  unfold getProduct, getCollection, getEntity, sanitizeSingleItemOptions.
  cbn [si_id si_fields]. by rewrite trim_idempotent.
Qed.

(** ** The operations sent to the store *)

Ltac counted :=
  first [ by exists []; split; [unfold sends; cbn [snd trace];
                                 rewrite app_nil_r|cbn; lia]
        | by eexists [_]; split; [reflexivity|cbn; lia] ].

Ltac walk :=
  intros ?; unfold sends;
  repeat (run; cbn [snd];
          try match goal with
              | |- context [match ?x with _ => _ end] => destruct x
              end).

Lemma at_most_one_getEntity (coll : string) (options : SingleItemOptionsType) :
  at_most_one_operation (getEntity coll options).
Proof. unfold getEntity. walk; counted. Qed.

(** X14: [getProduct], [getCollection], [getProducts], [getProductsByIds],
    [getUpsells], [getUpsell] and [getCategories] send at most one
    operation to the store, whatever the options and the store, and
    whether they return or throw. *)
Theorem flat_reads_send_one_operation (rt : runtime) :
  (∀ options, at_most_one_operation (getProduct options))
  ∧ (∀ options, at_most_one_operation (getCollection options))
  ∧ (∀ options, at_most_one_operation (getProducts rt options))
  ∧ (∀ options, at_most_one_operation (getProductsByIds rt options))
  ∧ at_most_one_operation (getUpsells rt)
  ∧ (∀ id, at_most_one_operation (getUpsell rt id))
  ∧ at_most_one_operation (getCategories rt).
Proof.
  split; [|split; [|split; [|split; [|split; [|split]]]]].
  - intros options. apply at_most_one_getEntity.
  - intros options. apply at_most_one_getEntity.
  - intros options. unfold getProducts. walk; counted.
  - intros options. unfold getProductsByIds. walk; counted.
  - unfold getUpsells. walk; counted.
  - intros id. unfold getUpsell. walk; counted.
  - unfold getCategories. walk; counted.
Qed.

Lemma sends_promise_all {A B} (f : A → M B) (ops : A → list op)
    (l : list A) (w : world) :
  Forall (λ x, ∀ wa, sends (f x) wa (ops x)) l →
  sends (promise_all (f <$> l)) w (l ≫= ops).
Proof.
  intros Hall. revert w. induction Hall as [|x l Hx _ IH]; intros w.
  - unfold sends. cbn. by rewrite app_nil_r.
  - unfold sends in *. cbn [fmap list_fmap promise_all].
    specialize (Hx w). destruct (f x w) as [r w1]. specialize (IH w1).
    change (list_fmap A (M B) f l) with (f <$> l).
    destruct (promise_all (f <$> l) w1) as [rs w2].
    cbn [snd] in *. rewrite IH, Hx. cbn [mbind list_bind].
    by rewrite (assoc_L (++)).
Qed.

Lemma sends_expandCollectionProduct (ref : value) (wa : world) :
  is_reference ref → sends (expandCollectionProduct ref) wa (product_read ref).
Proof.
  intros (s & o & Href). unfold sends.
  rewrite (expandCollectionProduct_result ref s o wa Href).
  destruct Href as (-> & Hid & _). unfold product_read. by rewrite Hid.
Qed.

Lemma sends_collectionEntry (fields : list string)
    (d : QueryDocumentSnapshot) (refs : list value) (wa : world) :
  "products" ∈ fields →
  q_data d !! "hasOwnProperty" = None →
  references (q_data d) = Some refs →
  Forall is_reference refs →
  sends (collectionEntry fields d) wa (product_reads d).
Proof.
  intros Hin Hplain Hrefs Hall.
  pose proof (sends_promise_all expandCollectionProduct product_read refs wa)
    as Hsent.
  unfold sends in *. unfold collectionEntry. run.
  rewrite select_fields_requested by done. run.
  rewrite (right_id_L ∅ (∪)).
  rewrite bool_decide_eq_true_2 by done. run.
  rewrite (as_array_references _ _ Hrefs). run.
  unfold product_reads. rewrite Hrefs. cbn [default].
  destruct (promise_all (expandCollectionProduct <$> refs) wa)
    as [[items|] w1]; cbn [snd] in *; apply Hsent;
    (eapply Forall_impl; [exact Hall|]);
    intros ref Href wb; by apply sends_expandCollectionProduct.
Qed.

(** X15: with [products] among the requested fields, [getCollections]
    sends its one query and then one point read for every reference of
    every collection the query lists, in the order of the documents and of
    their references: the number of reads grows with the stored data. *)
Theorem getCollections_reads_every_reference (rt : runtime)
    (options : BaseOptionsType) (fs : list QueryConstraint) (w : world) :
  let snapshot := select "collections" fs (docs w) in
  "products" ∈ filter_strings (b_fields options) →
  unshadowed w →
  visibility_constraint (b_visibility options) = Ok fs →
  well_referenced snapshot →
  sends (getCollections rt options) w
    (Query "collections" fs :: (snapshot ≫= product_reads)).
Proof.
  intros snapshot Hin Hw Hfs Hrefs.
  pose proof (select_unshadowed w "collections" fs Hw) as Hplain.
  fold snapshot in Hplain.
  pose proof (sends_promise_all
                (collectionEntry (filter_strings (b_fields options)))
                product_reads snapshot
                (World (docs w) (trace w ++ [Query "collections" fs])))
    as Hsent.
  unfold sends in *. unfold getCollections. run. rewrite Hfs. run.
  fold snapshot.
  destruct snapshot as [|d0 snapshot0] eqn:Hsnap.
  { cbn. done. }
  rewrite <- Hsnap in *. clear Hsnap.
  assert (Htrace : trace (promise_all
             (collectionEntry (filter_strings (b_fields options))
                <$> snapshot)
             (World (docs w) (trace w ++ [Query "collections" fs]))).2
           = trace w ++ Query "collections" fs :: (snapshot ≫= product_reads)).
  { rewrite Hsent; [cbn [trace]; by rewrite <- (assoc_L (++))|].
    unfold well_referenced in Hrefs.
    rewrite Forall_forall in Hrefs, Hplain. apply Forall_forall.
    intros d Hd wa. destruct (Hrefs d Hd) as (refs & Href & Hall).
    eapply sends_collectionEntry; eauto. }
  destruct (promise_all _ _) as [[collections|] w1]; exact Htrace.
Qed.

Lemma getCollections_reads_every_reference_witness :
  sends (getCollections Engine.engine (all ["title"; "products"])) catalog
    [Query "collections" [];
     Read ["products"; "p2"]; Read ["products"; "gone"]].
Proof.
  assert (Hreads :
    Query "collections" []
      :: (select "collections" [] (docs catalog) ≫= product_reads)
    = [Query "collections" [];
       Read ["products"; "p2"]; Read ["products"; "gone"]])
    by (vm_compute; reflexivity).
  rewrite <- Hreads.
  apply (getCollections_reads_every_reference Engine.engine
           (all ["title"; "products"]) [] catalog).
  - compute_done.
  - compute_done.
  - reflexivity.
  - assert (select "collections" [] (docs catalog) =
            [ {| q_id := "c2"; q_data := winter |};
              {| q_id := "c1"; q_data := summer |} ]) as ->
      by (vm_compute; reflexivity).
    repeat constructor.
    + eexists. split; [vm_compute; reflexivity|]. constructor.
    + eexists. split; [vm_compute; reflexivity|].
      repeat constructor; eexists _, _; (split; [reflexivity|]);
        split; vm_compute; reflexivity.
Defined.
